(** * A shallow embedding of the rust-runes rule engine

    Sources: [src/facts.rs], [src/ast.rs], [src/rule.rs],
    [src/knowledge_base.rs], [src/engine.rs] and [src/parser.rs].

    Modelling choices:
    - [f64] is Rocq's primitive binary64 float ([PrimFloat]); [==], [<],
      [<=], [+], [/] are its IEEE operations ([eqb nan nan = false],
      [eqb 0 (-0) = true]).
    - Rust [String]s are byte strings ([String.string]); the parser works
      on ASCII text.
    - The fact store [HashMap<String, Fact>] and the rule index
      [HashMap<String, usize>] are stdpp [gmap]s.  The nested
      [HashMap<String, FactValue>] inside [FactValue::Object] is an
      association list with unique keys (a [gmap] cannot be nested in an
      inductive type).
    - [&mut] state is explicit state passing: a mutating function returns
      its result together with the new state. *)

From Stdlib Require Import ZArith Floats Ascii Sorted Permutation.
From stdpp Require Import base gmap list strings.

Open Scope Z_scope.
Set Warnings "-register-all -inexact-float".

(** ** Results *)

Inductive Result (A E : Type) : Type :=
| Ok (a : A)
| Err (e : E).
Arguments Ok {A E} a.
Arguments Err {A E} e.

Definition bind_result {A B E} (r : Result A E) (k : A -> Result B E)
  : Result B E :=
  match r with
  | Ok a => k a
  | Err e => Err e
  end.

(** The [?] operator of Rust. *)
Notation "'let?' x ':=' r 'in' k" := (bind_result r (fun x => k))
  (at level 200, x name, r at level 100, k at level 200).

(** ** facts.rs *)

Module FactValue.
Inductive t : Type :=
| String (s : string)
| Number (n : float)
| Boolean (b : bool)
| Object (obj : list (string * t))
| Array (arr : list t)
| Null.
End FactValue.

(** [HashMap::get] on the association list of an object. *)
Fixpoint obj_get (obj : list (string * FactValue.t)) (k : string)
  : option FactValue.t :=
  match obj with
  | [] => None
  | (k', v) :: rest => if String.eqb k' k then Some v else obj_get rest k
  end.

(** [HashMap::insert]: overwrite the key if present, add it otherwise. *)
Fixpoint obj_insert (obj : list (string * FactValue.t)) (k : string)
    (v : FactValue.t) : list (string * FactValue.t) :=
  match obj with
  | [] => [(k, v)]
  | (k', v') :: rest =>
      if String.eqb k' k then (k', v) :: rest else (k', v') :: obj_insert rest k v
  end.

Definition is_truthy (v : FactValue.t) : bool :=
  match v with
  | FactValue.Boolean b => b
  | FactValue.Number n => negb (PrimFloat.eqb n PrimFloat.zero)
  | FactValue.String s => negb (String.eqb s EmptyString)
  | FactValue.Array arr => negb (bool_decide (arr = []))
  | FactValue.Object obj => negb (bool_decide (obj = []))
  | FactValue.Null => false
  end.

Module Fact.
Record t : Type := new { name : string; value : FactValue.t }.

Definition set_field (f : t) (field_name : string) (v : FactValue.t)
  : Result t string :=
  match value f with
  | FactValue.Object obj => Ok (new (name f) (FactValue.Object (obj_insert obj field_name v)))
  | _ => Err "Cannot set field on non-object fact"%string
  end.

Definition get_field (f : t) (field_name : string) : option FactValue.t :=
  match value f with
  | FactValue.Object obj => obj_get obj field_name
  | _ => None
  end.
End Fact.

Abbreviation Facts := (gmap string Fact.t).

(** ** ast.rs *)

Module Expression.
Inductive t : Type :=
| String (s : string)
| Number (n : float)
| Boolean (b : bool)
| Var (name : string)  (* [Expression::Variable]; [Variable] is a Rocq keyword *)
| FieldAccess (obj : t) (field : string)
| Add (l r : t)
| Subtract (l r : t)
| Multiply (l r : t)
| Divide (l r : t)
| Equal (l r : t)
| NotEqual (l r : t)
| LessThan (l r : t)
| LessEqual (l r : t)
| GreaterThan (l r : t)
| GreaterEqual (l r : t)
| And (l r : t)
| Or (l r : t)
| Not (e : t)
| Assignment (var : string) (e : t)
| FieldAssignment (obj field : string) (e : t).
End Expression.

(** ** rule.rs *)

Module Rule.
Record t : Type := {
  name : string;
  description : option string;
  salience : Z;
  when_condition : Expression.t;
  then_actions : list Expression.t
}.

Definition new (name : string) (salience : Z) (when_condition : Expression.t)
    (then_actions : list Expression.t) : t :=
  {| name := name; description := None; salience := salience;
     when_condition := when_condition; then_actions := then_actions |}.

Definition with_description (r : t) (d : string) : t :=
  {| name := name r; description := Some d; salience := salience r;
     when_condition := when_condition r; then_actions := then_actions r |}.
End Rule.

(** ** engine.rs *)

Inductive EngineError : Type :=
| EvaluationError (msg : string)
| UnknownVariable (name : string)
| TypeError (msg : string)
| DivisionByZero.

Definition values_equal (left right : FactValue.t) : bool :=
  match left, right with
  | FactValue.String a, FactValue.String b => String.eqb a b
  | FactValue.Number a, FactValue.Number b => PrimFloat.eqb a b
  | FactValue.Boolean a, FactValue.Boolean b => Bool.eqb a b
  | FactValue.Null, FactValue.Null => true
  | _, _ => false
  end.

(** A numeric binary operator: both operands evaluated, left first. *)
Definition num_op (l r : FactValue.t) (f : float -> float -> FactValue.t)
    (msg : string) : Result FactValue.t EngineError :=
  match l, r with
  | FactValue.Number a, FactValue.Number b => Ok (f a b)
  | _, _ => Err (TypeError msg)
  end.

Fixpoint evaluate_expression (expr : Expression.t) (facts : Facts)
  : Result FactValue.t EngineError :=
  match expr with
  | Expression.String s => Ok (FactValue.String s)
  | Expression.Number n => Ok (FactValue.Number n)
  | Expression.Boolean b => Ok (FactValue.Boolean b)
  | Expression.Var name =>
      match facts !! name with
      | Some fact => Ok (Fact.value fact)
      | None => Err (UnknownVariable name)
      end
  | Expression.FieldAccess obj_expr field =>
      let? v := evaluate_expression obj_expr facts in
      match v with
      | FactValue.Object obj =>
          match obj_get obj field with
          | Some x => Ok x
          | None => Err (EvaluationError ("Field '" ++ field ++ "' not found"))
          end
      | _ => Err (TypeError "Cannot access field on non-object")
      end
  | Expression.Add lhs rhs =>
      let? left_val := evaluate_expression lhs facts in
      let? right_val := evaluate_expression rhs facts in
      match left_val, right_val with
      | FactValue.Number a, FactValue.Number b => Ok (FactValue.Number (PrimFloat.add a b))
      | FactValue.String a, FactValue.String b => Ok (FactValue.String (a ++ b))
      | _, _ => Err (TypeError "Cannot add these types")
      end
  | Expression.Subtract lhs rhs =>
      let? left_val := evaluate_expression lhs facts in
      let? right_val := evaluate_expression rhs facts in
      num_op left_val right_val (fun a b => FactValue.Number (PrimFloat.sub a b))
        "Cannot subtract these types"
  | Expression.Multiply lhs rhs =>
      let? left_val := evaluate_expression lhs facts in
      let? right_val := evaluate_expression rhs facts in
      num_op left_val right_val (fun a b => FactValue.Number (PrimFloat.mul a b))
        "Cannot multiply these types"
  | Expression.Divide lhs rhs =>
      let? left_val := evaluate_expression lhs facts in
      let? right_val := evaluate_expression rhs facts in
      match left_val, right_val with
      | FactValue.Number a, FactValue.Number b =>
          if PrimFloat.eqb b PrimFloat.zero then Err DivisionByZero
          else Ok (FactValue.Number (PrimFloat.div a b))
      | _, _ => Err (TypeError "Cannot divide these types")
      end
  | Expression.Equal lhs rhs =>
      let? left_val := evaluate_expression lhs facts in
      let? right_val := evaluate_expression rhs facts in
      Ok (FactValue.Boolean (values_equal left_val right_val))
  | Expression.NotEqual lhs rhs =>
      let? left_val := evaluate_expression lhs facts in
      let? right_val := evaluate_expression rhs facts in
      Ok (FactValue.Boolean (negb (values_equal left_val right_val)))
  | Expression.LessThan lhs rhs =>
      let? left_val := evaluate_expression lhs facts in
      let? right_val := evaluate_expression rhs facts in
      num_op left_val right_val (fun a b => FactValue.Boolean (PrimFloat.ltb a b))
        "Cannot compare these types"
  | Expression.LessEqual lhs rhs =>
      let? left_val := evaluate_expression lhs facts in
      let? right_val := evaluate_expression rhs facts in
      num_op left_val right_val (fun a b => FactValue.Boolean (PrimFloat.leb a b))
        "Cannot compare these types"
  | Expression.GreaterThan lhs rhs =>
      let? left_val := evaluate_expression lhs facts in
      let? right_val := evaluate_expression rhs facts in
      num_op left_val right_val (fun a b => FactValue.Boolean (PrimFloat.ltb b a))
        "Cannot compare these types"
  | Expression.GreaterEqual lhs rhs =>
      let? left_val := evaluate_expression lhs facts in
      let? right_val := evaluate_expression rhs facts in
      num_op left_val right_val (fun a b => FactValue.Boolean (PrimFloat.leb b a))
        "Cannot compare these types"
  | Expression.And lhs rhs =>
      let? left_val := evaluate_expression lhs facts in
      let? right_val := evaluate_expression rhs facts in
      Ok (FactValue.Boolean (is_truthy left_val && is_truthy right_val))
  | Expression.Or lhs rhs =>
      let? left_val := evaluate_expression lhs facts in
      let? right_val := evaluate_expression rhs facts in
      Ok (FactValue.Boolean (is_truthy left_val || is_truthy right_val))
  | Expression.Not e =>
      let? v := evaluate_expression e facts in
      Ok (FactValue.Boolean (negb (is_truthy v)))
  | _ => Err (EvaluationError "Unsupported expression type")
  end.

Definition evaluate_condition (expr : Expression.t) (facts : Facts)
  : Result bool EngineError :=
  let? value := evaluate_expression expr facts in Ok (is_truthy value).

(** [execute_action]: the only mutating entry point.  On every error path
    the Rust code returns before touching [facts]. *)
Definition execute_action (action : Expression.t) (facts : Facts)
  : Result unit EngineError * Facts :=
  match action with
  | Expression.Assignment var_name value_expr =>
      match evaluate_expression value_expr facts with
      | Err e => (Err e, facts)
      | Ok value => (Ok tt, <[var_name := Fact.new var_name value]> facts)
      end
  | Expression.FieldAssignment obj_name field_name value_expr =>
      match evaluate_expression value_expr facts with
      | Err e => (Err e, facts)
      | Ok value =>
          match facts !! obj_name with
          | Some fact =>
              match Fact.set_field fact field_name value with
              | Ok fact' => (Ok tt, <[obj_name := fact']> facts)
              | Err msg => (Err (EvaluationError msg), facts)
              end
          | None => (Err (UnknownVariable obj_name), facts)
          end
      end
  | _ => (Err (EvaluationError "Invalid action expression"), facts)
  end.

(** The inner loop [for action in &rule.then_actions { execute_action(..)?; }]. *)
Fixpoint execute_actions (actions : list Expression.t) (facts : Facts)
  : Result unit EngineError * Facts :=
  match actions with
  | [] => (Ok tt, facts)
  | action :: rest =>
      match execute_action action facts with
      | (Ok _, facts') => execute_actions rest facts'
      | (Err e, facts') => (Err e, facts')
      end
  end.

(** The outer loop of [execute] over the salience-sorted rules, with the
    accumulated [rules_fired]. *)
Fixpoint execute_rules (rules : list Rule.t) (rules_fired : list string)
    (facts : Facts) : Result (list string) EngineError * Facts :=
  match rules with
  | [] => (Ok rules_fired, facts)
  | rule :: rest =>
      match evaluate_condition (Rule.when_condition rule) facts with
      | Err e => (Err e, facts)
      | Ok false => execute_rules rest rules_fired facts
      | Ok true =>
          match execute_actions (Rule.then_actions rule) facts with
          | (Err e, facts') => (Err e, facts')
          | (Ok _, facts') => execute_rules rest (rules_fired ++ [Rule.name rule]) facts'
          end
      end
  end.

Record ExecutionResult : Type := {
  rules_fired : list string;
  facts_modified : list string;
  execution_time_ms : Z
}.

(** ** knowledge_base.rs *)

Record KnowledgeBase : Type := {
  rules : list Rule.t;
  rule_index : gmap string nat
}.

Definition KnowledgeBase_new : KnowledgeBase :=
  {| rules := []; rule_index := ∅ |}.

Definition add_rule (kb : KnowledgeBase) (rule : Rule.t)
  : Result unit string * KnowledgeBase :=
  if bool_decide (is_Some (rule_index kb !! Rule.name rule)) then
    (Err ("Rule '" ++ Rule.name rule ++ "' already exists")%string, kb)
  else
    let index := length (rules kb) in
    (Ok tt, {| rules := rules kb ++ [rule];
               rule_index := <[Rule.name rule := index]> (rule_index kb) |}).

Definition get_rule (kb : KnowledgeBase) (name : string) : option Rule.t :=
  rule_index kb !! name ≫= fun index => rules kb !! index.

Definition len (kb : KnowledgeBase) : nat := length (rules kb).

(** [slice::sort_by] is a stable sort; all stable sorts by the same
    comparator give the same output, so it is modelled by a stable
    insertion sort: [x] is put before the first [y] it is not
    [Greater] than. *)
Fixpoint insert_by {A} (cmp : A -> A -> comparison) (x : A) (ys : list A)
  : list A :=
  match ys with
  | [] => [x]
  | y :: ys' =>
      match cmp x y with
      | Gt => y :: insert_by cmp x ys'
      | _ => x :: y :: ys'
      end
  end.

Fixpoint sort_by {A} (cmp : A -> A -> comparison) (l : list A) : list A :=
  match l with
  | [] => []
  | x :: xs => insert_by cmp x (sort_by cmp xs)
  end.

(** The comparator [|a, b| b.salience.cmp(&a.salience)], for any key. *)
Definition by_key_desc {A} (key : A -> Z) (a b : A) : comparison :=
  Z.compare (key b) (key a).

Definition get_rules_sorted_by_salience (kb : KnowledgeBase) : list Rule.t :=
  sort_by (by_key_desc Rule.salience) (rules kb).

(** The [iter_mut] loop of [remove_rule]: [if *rule_index > index
    { *rule_index -= 1; }]. *)
Definition shift_index (index rule_index : nat) : nat :=
  if Nat.ltb index rule_index then (rule_index - 1)%nat else rule_index.

(** [remove_rule]; the outer [None] is the panic of [Vec::remove] on an
    out-of-range index. *)
Definition remove_rule (kb : KnowledgeBase) (name : string)
  : option (option Rule.t * KnowledgeBase) :=
  match rule_index kb !! name with
  | Some index =>
      match rules kb !! index with
      | None => None
      | Some rule =>
          Some (Some rule,
                {| rules := delete index (rules kb);
                   rule_index :=
                     shift_index index
                       <$> delete name (rule_index kb) |})
      end
  | None => Some (None, kb)
  end.

(** [RuleEngine::execute]; the wall-clock reading is an input. *)
Definition execute (kb : KnowledgeBase) (facts : Facts) (elapsed_ms : Z)
  : Result ExecutionResult EngineError * Facts :=
  match execute_rules (get_rules_sorted_by_salience kb) [] facts with
  | (Ok fired, facts') =>
      (Ok {| rules_fired := fired; facts_modified := [];
             execution_time_ms := elapsed_ms |}, facts')
  | (Err e, facts') => (Err e, facts')
  end.

(** ** parser.rs: string primitives *)

(** [char::is_whitespace] on ASCII: space, [\t], [\n], [\v], [\f], [\r]. *)
Definition is_ws (c : ascii) : bool :=
  let n := nat_of_ascii c in (Nat.eqb n 32 || (Nat.leb 9 n && Nat.leb n 13))%bool.

Fixpoint drop_ws (l : list ascii) : list ascii :=
  match l with
  | c :: rest => if is_ws c then drop_ws rest else l
  | [] => []
  end.

(** [str::trim]. *)
Definition trim (s : string) : string :=
  String.string_of_list_ascii (rev (drop_ws (rev (drop_ws (String.list_ascii_of_string s))))).

(** [str::find]: the byte position of the first occurrence. *)
Fixpoint find (needle hay : string) : option nat :=
  if String.prefix needle hay then Some 0%nat
  else match hay with
       | EmptyString => None
       | String _ rest => option_map S (find needle rest)
       end.

(** [str::rfind]: the byte position of the last occurrence. *)
Fixpoint rfind (needle hay : string) : option nat :=
  match hay with
  | EmptyString => if String.prefix needle hay then Some 0%nat else None
  | String _ rest =>
      match rfind needle rest with
      | Some p => Some (S p)
      | None => if String.prefix needle hay then Some 0%nat else None
      end
  end.

(** [&s[..p]] and [&s[p..]]. *)
Definition slice_to (p : nat) (s : string) : string := String.substring 0 p s.
Definition slice_from (p : nat) (s : string) : string :=
  String.substring p (String.length s - p) s.

(** ** The [regex] crate, restricted to the constructs of the patterns:
    a backtracking matcher with leftmost-first preference (the order of
    alternatives and the greediness of repetitions), as the crate's
    [captures] reports. *)

Inductive regex : Type :=
| RChar (p : ascii -> bool)
| RSeq (r1 r2 : regex)
| RAlt (r1 r2 : regex)
| RStar (greedy : bool) (r : regex)
| RGroup (n : nat) (r : regex)
| REnd.

Definition RPlus (r : regex) : regex := RSeq r (RStar true r).
Definition RPlusLazy (r : regex) : regex := RSeq r (RStar false r).

Fixpoint RLit (l : list ascii) : regex :=
  match l with
  | [] => RStar true (RChar (fun _ => false))
  | [c] => RChar (fun d => Ascii.eqb c d)
  | c :: rest => RSeq (RChar (fun d => Ascii.eqb c d)) (RLit rest)
  end.

Definition lit (s : string) : regex := RLit (String.list_ascii_of_string s).

(** [\w] and [\s] on ASCII, and [.] (anything but a newline). *)
Definition is_alnum (c : ascii) : bool :=
  let n := nat_of_ascii c in
  (Nat.leb 48 n && Nat.leb n 57 || Nat.leb 65 n && Nat.leb n 90 ||
   Nat.leb 97 n && Nat.leb n 122)%bool.
Definition is_word (c : ascii) : bool := (is_alnum c || Ascii.eqb c "_")%bool.
Definition re_w : regex := RChar is_word.
Definition re_s : regex := RChar is_ws.
Definition re_dot : regex := RChar (fun c => negb (Ascii.eqb c "010"%char)).

(** Captures: group number to byte span, the latest binding first. *)
Definition captures := list (nat * (nat * nat)).

Fixpoint group (cs : captures) (n : nat) : option (nat * nat) :=
  match cs with
  | [] => None
  | (m, span) :: rest => if Nat.eqb m n then Some span else group rest n
  end.

(** [rmatch fuel r s i cs k]: match [r] at byte position [i], [s] being
    the rest of the text, then run the continuation [k]. *)
Fixpoint rmatch (fuel : nat) (r : regex) (s : list ascii) (i : nat) (cs : captures)
    (k : list ascii -> nat -> captures -> option captures) : option captures :=
  match fuel with
  | O => None
  | S f =>
      match r with
      | RChar p =>
          match s with
          | c :: s' => if p c then k s' (S i) cs else None
          | [] => None
          end
      | RSeq r1 r2 => rmatch f r1 s i cs (fun s' i' cs' => rmatch f r2 s' i' cs' k)
      | RAlt r1 r2 =>
          match rmatch f r1 s i cs k with
          | Some c => Some c
          | None => rmatch f r2 s i cs k
          end
      | RStar greedy r1 =>
          let more := rmatch f r1 s i cs (fun s' i' cs' =>
                        if Nat.eqb i' i then None
                        else rmatch f (RStar greedy r1) s' i' cs' k) in
          if greedy then
            match more with Some c => Some c | None => k s i cs end
          else
            match k s i cs with Some c => Some c | None => more end
      | RGroup n r1 => rmatch f r1 s i cs (fun s' i' cs' => k s' i' ((n, (i, i')) :: cs'))
      | REnd => match s with [] => k s i cs | _ => None end
      end
  end.

Fixpoint regex_size (r : regex) : nat :=
  match r with
  | RChar _ | REnd => 1
  | RSeq r1 r2 | RAlt r1 r2 => S (regex_size r1 + regex_size r2)
  | RStar _ r1 | RGroup _ r1 => S (regex_size r1)
  end.

(** [Regex::captures]: the leftmost match start, first; group 0 is the
    whole match.  The fuel bounds the depth of the backtracking, which
    grows by a constant per matched byte and per pattern node. *)
Definition regex_captures (r : regex) (text : string) : option captures :=
  let l := String.list_ascii_of_string text in
  let fuel := (4 * (length l + regex_size r) + 4)%nat in
  (fix search (s : list ascii) (i : nat) (n : nat) : option captures :=
     match rmatch fuel (RGroup 0 r) s i [] (fun _ _ cs => Some cs) with
     | Some cs => Some cs
     | None =>
         match s, n with
         | _ :: s', S n' => search s' (S i) n'
         | _, _ => None
         end
     end) l 0%nat (length l).

Definition capture_str (text : string) (cs : captures) (n : nat) : option string :=
  option_map (fun '(i, j) => String.substring i (j - i) text) (group cs n).

(** [condition_pattern]: group 1 is [\w+] followed by any number of
    [(?:\.\w+)]; then [\s*]; group 2 is [(==|!=|<|<=|>|>=)]; then [\s*];
    group 3 is the lazy [(.+?)]; then [(?:\s+&&|\s+\|\||$)]. *)
Definition condition_pattern : regex :=
  RSeq (RGroup 1 (RSeq (RPlus re_w) (RStar true (RSeq (lit ".") (RPlus re_w)))))
  (RSeq (RStar true re_s)
  (RSeq (RGroup 2 (RAlt (lit "==") (RAlt (lit "!=") (RAlt (lit "<")
                   (RAlt (lit "<=") (RAlt (lit ">") (lit ">=")))))))
  (RSeq (RStar true re_s)
  (RSeq (RGroup 3 (RPlusLazy re_dot))
        (RAlt (RSeq (RPlus re_s) (lit "&&"))
              (RAlt (RSeq (RPlus re_s) (lit "||")) REnd)))))).

(** ** [str::parse::<f64>] *)

(** The grammar of [f64::from_str]:
    [Sign? ('inf' | 'infinity' | 'nan' | Number)], the words in any case,
    [Number ::= (Digit+ | Digit+ '.' Digit* | Digit* '.' Digit+) Exp?],
    [Exp ::= ('e' | 'E') Sign? Digit+]; the value is the binary64 nearest
    to the decimal (ties to even). *)

Definition digit_val (c : ascii) : option Z :=
  let n := nat_of_ascii c in
  if (Nat.leb 48 n && Nat.leb n 57)%bool then Some (Z.of_nat n - 48) else None.

Fixpoint span_digits (l : list ascii) : list Z * list ascii :=
  match l with
  | c :: rest =>
      match digit_val c with
      | Some d => let '(ds, r) := span_digits rest in (d :: ds, r)
      | None => ([], l)
      end
  | [] => ([], [])
  end.

Definition z_of_digits (ds : list Z) : Z := fold_left (fun acc d => acc * 10 + d) ds 0.

Definition to_lower (c : ascii) : ascii :=
  let n := nat_of_ascii c in
  if (Nat.leb 65 n && Nat.leb n 90)%bool then ascii_of_nat (n + 32) else c.

(** The binary64 nearest to [num / den] ([num, den > 0]), ties to even:
    a 53-bit quotient at the binary exponent [e] (at least [-1074], the
    subnormal exponent), rounded, then scaled; overflow gives infinity. *)
Definition round_binary64 (num den : Z) : float :=
  let q_at (e : Z) := if e >=? 0 then num / (den * 2 ^ e) else num * 2 ^ (- e) / den in
  let e1 := Z.log2 num - Z.log2 den - 52 in
  let e2 := if q_at e1 >=? 2 ^ 52 then e1 else e1 - 1 in
  let e := Z.max e2 (-1074) in
  let n' := if e >=? 0 then num else num * 2 ^ (- e) in
  let d' := if e >=? 0 then den * 2 ^ e else den in
  let q := n' / d' in
  let r := n' mod d' in
  let q' := if (2 * r >? d') || ((2 * r =? d') && Z.odd q) then q + 1 else q in
  FloatOps.Z.ldexp (of_uint63 (Uint63.of_Z q')) e.

Definition decimal_to_float (neg : bool) (m e10 : Z) : float :=
  let f := if m =? 0 then PrimFloat.zero
           else if e10 >=? 0 then round_binary64 (m * 10 ^ e10) 1
           else round_binary64 m (10 ^ (- e10)) in
  if neg then PrimFloat.opp f else f.

Definition parse_f64 (s : string) : Result float unit :=
  let l := String.list_ascii_of_string s in
  let '(neg, body) := match l with
                      | "+"%char :: r => (false, r)
                      | "-"%char :: r => (true, r)
                      | _ => (false, l)
                      end in
  let word := String.string_of_list_ascii (map to_lower body) in
  if (String.eqb word "inf" || String.eqb word "infinity")%bool then
    Ok (if neg then PrimFloat.neg_infinity else PrimFloat.infinity)
  else if String.eqb word "nan" then
    Ok (if neg then PrimFloat.opp PrimFloat.nan else PrimFloat.nan)
  else
    let '(d1, r1) := span_digits body in
    let '(d2, r2) := match r1 with
                     | "."%char :: r => span_digits r
                     | _ => ([], r1)
                     end in
    if bool_decide (d1 ++ d2 = []) then Err tt
    else
      let exp := match r2 with
                 | [] => Some 0
                 | c :: r =>
                     if (Ascii.eqb c "e" || Ascii.eqb c "E")%bool then
                       let '(eneg, r') := match r with
                                          | "+"%char :: r' => (false, r')
                                          | "-"%char :: r' => (true, r')
                                          | _ => (false, r)
                                          end in
                       let '(de, rest) := span_digits r' in
                       match de, rest with
                       | _ :: _, [] => Some (if eneg then - z_of_digits de else z_of_digits de)
                       | _, _ => None
                       end
                     else None
                 end in
      match exp with
      | Some e =>
          Ok (decimal_to_float neg (z_of_digits (d1 ++ d2)) (e - Z.of_nat (length d2)))
      | None => Err tt
      end.

(** ** parser.rs: [GrlParser] *)

(** A parser call either returns its [Result] or panics. *)
Inductive Outcome (A : Type) : Type :=
| Done (r : Result A string)
| Panic.
Arguments Done {A} r.
Arguments Panic {A}.

Definition bind_outcome {A B} (o : Outcome A) (k : A -> Outcome B) : Outcome B :=
  match o with
  | Done (Ok a) => k a
  | Done (Err msg) => Done (Err msg)
  | Panic => Panic
  end.

Notation "'let??' x ':=' o 'in' k" := (bind_outcome o (fun x => k))
  (at level 200, x name, o at level 100, k at level 200).

Definition parse_variable_or_field (var_text : string) : Expression.t :=
  match find "." var_text with
  | Some dot_pos =>
      Expression.FieldAccess (Expression.Var (slice_to dot_pos var_text))
                             (slice_from (dot_pos + 1) var_text)
  | None => Expression.Var var_text
  end.

(** [char::is_alphanumeric() || c == '.' || c == '_'] on ASCII. *)
Definition is_ident_char (c : ascii) : bool :=
  (is_alnum c || Ascii.eqb c "." || Ascii.eqb c "_")%bool.

(** The one-byte text of a double quote (byte 34). *)
Definition quote : string := String.String "034"%char EmptyString.

(** [parse_value]; each recursive call is on a strictly shorter text, so
    [String.length text + 1] is enough fuel. *)
Fixpoint parse_value_fuel (fuel : nat) (value_text : string) : Outcome Expression.t :=
  match fuel with
  | O => Panic (* unreachable *)
  | S f =>
      let trimmed := trim value_text in
      match parse_f64 trimmed with
      | Ok num => Done (Ok (Expression.Number num))
      | Err _ =>
          if String.eqb trimmed "true" then Done (Ok (Expression.Boolean true))
          else if String.eqb trimmed "false" then Done (Ok (Expression.Boolean false))
          else if (String.prefix quote trimmed &&
                   String.eqb (String.substring (String.length trimmed - 1) 1 trimmed) quote)%bool
          then
            (* [trimmed[1..trimmed.len()-1]] panics on the one-byte text *)
            if Nat.ltb (String.length trimmed) 2 then Panic
            else Done (Ok (Expression.String
                             (String.substring 1 (String.length trimmed - 2) trimmed)))
          else if forallb is_ident_char (String.list_ascii_of_string trimmed) then
            Done (Ok (parse_variable_or_field trimmed))
          else
            match rfind " + " trimmed with
            | Some plus_pos =>
                let?? left := parse_value_fuel f (slice_to plus_pos trimmed) in
                let?? right := parse_value_fuel f (slice_from (plus_pos + 3) trimmed) in
                Done (Ok (Expression.Add left right))
            | None => Done (Err ("Cannot parse value: " ++ trimmed)%string)
            end
      end
  end.

Definition parse_value (value_text : string) : Outcome Expression.t :=
  parse_value_fuel (S (String.length value_text)) value_text.

(** The comparison of [parse_condition] on its operator text. *)
Definition comparison_of (operator : string) (l r : Expression.t)
  : Outcome Expression.t :=
  if String.eqb operator "==" then Done (Ok (Expression.Equal l r))
  else if String.eqb operator "!=" then Done (Ok (Expression.NotEqual l r))
  else if String.eqb operator "<" then Done (Ok (Expression.LessThan l r))
  else if String.eqb operator "<=" then Done (Ok (Expression.LessEqual l r))
  else if String.eqb operator ">" then Done (Ok (Expression.GreaterThan l r))
  else if String.eqb operator ">=" then Done (Ok (Expression.GreaterEqual l r))
  else Done (Err ("Unknown operator: " ++ operator)%string).

(** [parse_condition]; fuel as for [parse_value]. *)
Fixpoint parse_condition_fuel (fuel : nat) (condition_text : string)
  : Outcome Expression.t :=
  match fuel with
  | O => Panic (* unreachable *)
  | S f =>
      let trimmed := trim condition_text in
      match find " && " trimmed with
      | Some and_pos =>
          let?? left := parse_condition_fuel f (slice_to and_pos trimmed) in
          let?? right := parse_condition_fuel f (slice_from (and_pos + 4) trimmed) in
          Done (Ok (Expression.And left right))
      | None =>
      match find " || " trimmed with
      | Some or_pos =>
          let?? left := parse_condition_fuel f (slice_to or_pos trimmed) in
          let?? right := parse_condition_fuel f (slice_from (or_pos + 4) trimmed) in
          Done (Ok (Expression.Or left right))
      | None =>
      match regex_captures condition_pattern trimmed with
      | Some cs =>
          match capture_str trimmed cs 1, capture_str trimmed cs 2,
                capture_str trimmed cs 3 with
          | Some left_var, Some operator, Some right_text =>
              let right_value := trim right_text in
              let left_expr := parse_variable_or_field left_var in
              let?? right_expr := parse_value right_value in
              comparison_of operator left_expr right_expr
          | _, _, _ => Panic (* [unwrap] of a group that always takes part *)
          end
      | None => Done (Err ("Cannot parse condition: " ++ trimmed)%string)
      end
      end
      end
  end.

Definition parse_condition (condition_text : string) : Outcome Expression.t :=
  parse_condition_fuel (S (String.length condition_text)) condition_text.

(** [str::split] on one separator byte: the pieces between separators,
    empty ones included ([";"] gives two empty pieces). *)
Fixpoint split_chars (sep : ascii) (l : list ascii) (cur : list ascii) : list string :=
  match l with
  | [] => [String.string_of_list_ascii (rev cur)]
  | c :: rest =>
      if Ascii.eqb c sep then String.string_of_list_ascii (rev cur) :: split_chars sep rest []
      else split_chars sep rest (c :: cur)
  end.

Definition split_on (sep : ascii) (s : string) : list string :=
  split_chars sep (String.list_ascii_of_string s) [].

(** The body of the loop of [parse_actions] on one trimmed, non-empty
    piece: [None] when the piece gives no action. *)
Definition parse_action (trimmed : string) : Outcome (option Expression.t) :=
  match find " = " trimmed with
  | Some eq_pos =>
      let left := trim (slice_to eq_pos trimmed) in
      let right := trim (slice_from (eq_pos + 3) trimmed) in
      if bool_decide (is_Some (find "." left)) then
        match split_on "." left with
        | [obj_name; field_name] =>
            let?? value_expr := parse_value right in
            Done (Ok (Some (Expression.FieldAssignment obj_name field_name value_expr)))
        | _ => Done (Ok None)
        end
      else
        let?? value_expr := parse_value right in
        Done (Ok (Some (Expression.Assignment left value_expr)))
  | None => Done (Ok None)
  end.

Fixpoint parse_action_list (pieces : list string) : Outcome (list Expression.t) :=
  match pieces with
  | [] => Done (Ok [])
  | action_text :: rest =>
      let trimmed := trim action_text in
      if String.eqb trimmed EmptyString then parse_action_list rest
      else
        let?? a := parse_action trimmed in
        let?? actions := parse_action_list rest in
        Done (Ok (option_list a ++ actions))
  end.

Definition parse_actions (actions_text : string) : Outcome (list Expression.t) :=
  parse_action_list (split_on ";" actions_text).

(** The fact names an expression reads when evaluated: the variables,
    also under a field access; the two action forms are rejected by
    [evaluate_expression] before they read anything. *)
Fixpoint expr_vars (e : Expression.t) : list string :=
  match e with
  | Expression.Var name => [name]
  | Expression.FieldAccess obj _ => expr_vars obj
  | Expression.Add l r | Expression.Subtract l r | Expression.Multiply l r
  | Expression.Divide l r | Expression.Equal l r | Expression.NotEqual l r
  | Expression.LessThan l r | Expression.LessEqual l r
  | Expression.GreaterThan l r | Expression.GreaterEqual l r
  | Expression.And l r | Expression.Or l r => expr_vars l ++ expr_vars r
  | Expression.Not e1 => expr_vars e1
  | _ => []
  end.

(** The binary nodes of [evaluate_expression]. *)
Definition binary_ops : list (Expression.t -> Expression.t -> Expression.t) :=
  [Expression.Add; Expression.Subtract; Expression.Multiply; Expression.Divide;
   Expression.Equal; Expression.NotEqual; Expression.LessThan; Expression.LessEqual;
   Expression.GreaterThan; Expression.GreaterEqual; Expression.And; Expression.Or].

(** The two forms [execute_action] accepts. *)
Definition is_action_form (a : Expression.t) : Prop :=
  (exists x ve, a = Expression.Assignment x ve) \/
  (exists o fld ve, a = Expression.FieldAssignment o fld ve).

(** ** Knowledge-base states reachable through the public API *)

Inductive reachable : KnowledgeBase -> Prop :=
| reachable_new : reachable KnowledgeBase_new
| reachable_add kb rule :
    reachable kb -> reachable (snd (add_rule kb rule))
| reachable_remove kb name removed kb' :
    reachable kb -> remove_rule kb name = Some (removed, kb') -> reachable kb'.

(** The index agrees with the backing vector, in both directions. *)
Definition index_consistent (kb : KnowledgeBase) : Prop :=
  (forall name i, rule_index kb !! name = Some i ->
     exists rule, rules kb !! i = Some rule /\ Rule.name rule = name) /\
  (forall i rule, rules kb !! i = Some rule ->
     rule_index kb !! Rule.name rule = Some i).

(** Sample rules for concrete runs. *)
Definition sample_rule (name : string) (salience : Z) : Rule.t :=
  Rule.new name salience (Expression.Boolean true) [].

Definition sample_kb : KnowledgeBase :=
  snd (add_rule (snd (add_rule (snd (add_rule KnowledgeBase_new
    (sample_rule "r1" 1))) (sample_rule "r2" 5))) (sample_rule "r3" 1)).

Definition sample_kb_removed : KnowledgeBase :=
  match remove_rule sample_kb "r1" with
  | Some (_, kb) => kb
  | None => sample_kb
  end.

(** Two rules for a concrete failing pass: [first] (salience 10) sets [x];
    [second] (salience 5) sets [y], then reads the absent fact [missing],
    then would set [w]. *)
Definition failing_first : Rule.t :=
  Rule.new "first" 10 (Expression.Boolean true)
    [Expression.Assignment "x" (Expression.Number 1)].

Definition failing_second : Rule.t :=
  Rule.new "second" 5 (Expression.Boolean true)
    [Expression.Assignment "y" (Expression.Number 2);
     Expression.Assignment "z" (Expression.Var "missing");
     Expression.Assignment "w" (Expression.Number 3)].

Definition failing_kb : KnowledgeBase :=
  snd (add_rule (snd (add_rule KnowledgeBase_new failing_second)) failing_first).

(** The leaves of the three-way conjunction used for the parser claim. *)
Definition cond_a : Expression.t := Expression.Equal (Expression.Var "a") (Expression.Var "x").
Definition cond_b : Expression.t := Expression.Equal (Expression.Var "b") (Expression.Var "y").
Definition cond_c : Expression.t := Expression.Equal (Expression.Var "c") (Expression.Var "z").

(** Same-variant equality of the four scalar variants, with numbers
    compared by [f64 ==]. *)
Definition scalar_equal (va vb : FactValue.t) : Prop :=
  (exists s, va = FactValue.String s /\ vb = FactValue.String s) \/
  (exists a b, va = FactValue.Number a /\ vb = FactValue.Number b /\
               PrimFloat.eqb a b = true) \/
  (exists x, va = FactValue.Boolean x /\ vb = FactValue.Boolean x) \/
  (va = FactValue.Null /\ vb = FactValue.Null).

Definition ordering_ops : list (Expression.t -> Expression.t -> Expression.t) :=
  [Expression.LessThan; Expression.LessEqual;
   Expression.GreaterThan; Expression.GreaterEqual].

(** * Theorems *)

(** Unfolding one step of [evaluate_expression] on a binary node whose
    operands evaluate to [va] and [vb]. *)
Ltac eval_operands Hl Hr :=
  cbn [evaluate_expression bind_result]; rewrite ?Hl, ?Hr; cbn [bind_result].

Lemma values_equal_spec (va vb : FactValue.t) :
  values_equal va vb = true <-> scalar_equal va vb.
Proof.
  unfold scalar_equal; split.
  - destruct va, vb; cbn; intros H; try discriminate.
    + apply String.eqb_eq in H; subst; left; eauto.
    + right; left; eauto.
    + apply Bool.eqb_prop in H; subst; right; right; left; eauto.
    + right; right; right; auto.
  - intros [[s [-> ->]] | [[a [b [-> [-> H]]]] | [[x [-> ->]] | [-> ->]]]]; cbn.
    + apply String.eqb_refl.
    + exact H.
    + apply Bool.eqb_reflx.
    + reflexivity.
Qed.

(** C4: [Add] is [f64] addition on two numbers, concatenation on two
    strings, and a [TypeError] on every other pairing. *)
Theorem add_number_string_typeerror (l r : Expression.t) (facts : Facts)
    (va vb : FactValue.t) :
  evaluate_expression l facts = Ok va ->
  evaluate_expression r facts = Ok vb ->
  (forall a b, va = FactValue.Number a -> vb = FactValue.Number b ->
     evaluate_expression (Expression.Add l r) facts =
       Ok (FactValue.Number (PrimFloat.add a b))) /\
  (forall a b, va = FactValue.String a -> vb = FactValue.String b ->
     evaluate_expression (Expression.Add l r) facts =
       Ok (FactValue.String (String.append a b))) /\
  ((~ exists a b, va = FactValue.Number a /\ vb = FactValue.Number b) ->
   (~ exists a b, va = FactValue.String a /\ vb = FactValue.String b) ->
   exists msg, evaluate_expression (Expression.Add l r) facts = Err (TypeError msg)).
Proof.
  intros Hl Hr; eval_operands Hl Hr; split; [|split].
  - intros a b -> ->; reflexivity.
  - intros a b -> ->; reflexivity.
  - intros Hn Hs; destruct va, vb; eauto;
      [exfalso; apply Hs; eauto | exfalso; apply Hn; eauto].
Qed.

Lemma add_number_string_typeerror_witness :
  evaluate_expression (Expression.Number 1.5) ∅ = Ok (FactValue.Number 1.5) /\
  evaluate_expression (Expression.String "ab") ∅ = Ok (FactValue.String "ab") /\
  exists msg, evaluate_expression (Expression.Add (Expression.Number 1.5)
                                                  (Expression.String "ab")) ∅
              = Err (TypeError msg).
Proof.
  split; [reflexivity | split; [reflexivity |]].
  apply (add_number_string_typeerror (Expression.Number 1.5) (Expression.String "ab") ∅
           (FactValue.Number 1.5) (FactValue.String "ab") eq_refl eq_refl).
  - intros [a [b [_ H]]]; discriminate.
  - intros [a [b [H _]]]; discriminate.
Defined.

(** C3 (as stated fails): a [Divide] of two finite, non-zero numbers
    overflows to infinity, and a NaN dividend gives a NaN quotient. *)
Lemma divide_produces_inf_nan :
  evaluate_expression (Expression.Divide (Expression.Number 0x1p1023)
                                         (Expression.Number 0.5)) ∅
    = Ok (FactValue.Number PrimFloat.infinity) /\
  is_infinity PrimFloat.infinity = true /\
  evaluate_expression (Expression.Divide (Expression.Number PrimFloat.nan)
                                         (Expression.Number 1)) ∅
    = Ok (FactValue.Number PrimFloat.nan) /\
  is_nan PrimFloat.nan = true.
Proof. vm_compute. repeat split. Qed.

(** C3 (amended): on two numbers [Divide] fails with [DivisionByZero]
    exactly when the divisor is [== 0.0] (also [-0.0]) and otherwise
    returns the IEEE quotient [a / b], which may be infinite or NaN; any
    other pairing fails with [TypeError]. *)
Theorem divide_zero_guard_only (l r : Expression.t) (facts : Facts)
    (va vb : FactValue.t) :
  evaluate_expression l facts = Ok va ->
  evaluate_expression r facts = Ok vb ->
  (forall a b, va = FactValue.Number a -> vb = FactValue.Number b ->
     (evaluate_expression (Expression.Divide l r) facts = Err DivisionByZero <->
      PrimFloat.eqb b PrimFloat.zero = true) /\
     (PrimFloat.eqb b PrimFloat.zero = false ->
      evaluate_expression (Expression.Divide l r) facts =
        Ok (FactValue.Number (PrimFloat.div a b)))) /\
  ((~ exists a b, va = FactValue.Number a /\ vb = FactValue.Number b) ->
   exists msg, evaluate_expression (Expression.Divide l r) facts = Err (TypeError msg)).
Proof.
  intros Hl Hr; eval_operands Hl Hr; split.
  - intros a b -> ->; split.
    + destruct (PrimFloat.eqb b PrimFloat.zero); split; congruence.
    + intros ->; reflexivity.
  - intros Hn; destruct va, vb; eauto; exfalso; apply Hn; eauto.
Qed.

Lemma divide_zero_guard_only_witness :
  evaluate_expression (Expression.Divide (Expression.Number 3)
                                         (Expression.Number (-0)%float)) ∅
    = Err DivisionByZero.
Proof.
  destruct (divide_zero_guard_only (Expression.Number 3) (Expression.Number (-0)%float) ∅
              (FactValue.Number 3) (FactValue.Number (-0)%float) eq_refl eq_refl)
    as [H _].
  apply (H 3%float (-0)%float eq_refl eq_refl).
  vm_compute; reflexivity.
Defined.

(** C6: [Equal] is [Boolean true] exactly on an equal same-variant
    String/Number/Boolean/Null pair (numbers by [f64 ==]), [NotEqual] is
    its negation, both never fail on evaluated operands; the four
    ordering comparisons succeed exactly on two numbers and fail with
    [TypeError] on every other pairing. *)
Theorem equality_and_ordering_comparisons (l r : Expression.t) (facts : Facts)
    (va vb : FactValue.t) :
  evaluate_expression l facts = Ok va ->
  evaluate_expression r facts = Ok vb ->
  (exists eq : bool,
     evaluate_expression (Expression.Equal l r) facts = Ok (FactValue.Boolean eq) /\
     evaluate_expression (Expression.NotEqual l r) facts =
       Ok (FactValue.Boolean (negb eq)) /\
     (eq = true <-> scalar_equal va vb)) /\
  (forall op, In op ordering_ops ->
     ((exists a b, va = FactValue.Number a /\ vb = FactValue.Number b) ->
      exists x, evaluate_expression (op l r) facts = Ok (FactValue.Boolean x)) /\
     ((~ exists a b, va = FactValue.Number a /\ vb = FactValue.Number b) ->
      exists msg, evaluate_expression (op l r) facts = Err (TypeError msg))).
Proof.
  intros Hl Hr; split.
  - exists (values_equal va vb); eval_operands Hl Hr.
    split; [reflexivity | split; [reflexivity | apply values_equal_spec]].
  - intros op Hop; unfold ordering_ops in Hop;
      repeat (destruct Hop as [<- | Hop]; [|]); [..| destruct Hop];
      eval_operands Hl Hr; unfold num_op; split;
      (intros [a [b [-> ->]]]; eauto) ||
      (intros Hn; destruct va, vb; eauto; exfalso; apply Hn; eauto).
Qed.

Lemma equality_and_ordering_comparisons_witness :
  exists msg, evaluate_expression (Expression.LessThan (Expression.String "a")
                                                       (Expression.Number 1)) ∅
              = Err (TypeError msg).
Proof.
  destruct (equality_and_ordering_comparisons (Expression.String "a") (Expression.Number 1) ∅
              (FactValue.String "a") (FactValue.Number 1) eq_refl eq_refl)
    as [_ H].
  apply (proj2 (H Expression.LessThan (or_introl eq_refl))).
  intros [a [b [Ha _]]]; discriminate.
Defined.

(** C7: [And]/[Or] evaluate both operands, left first, with no
    short-circuit: the node fails as soon as either operand fails, and
    otherwise yields [Boolean] of the combined truthiness; [Not] yields
    [Boolean] of the negated truthiness. *)
Theorem logical_ops_eager_boolean (l r : Expression.t) (facts : Facts) :
  (forall e,
     evaluate_expression (Expression.And l r) facts = Err e <->
     evaluate_expression l facts = Err e \/
     exists v, evaluate_expression l facts = Ok v /\
               evaluate_expression r facts = Err e) /\
  (forall e,
     evaluate_expression (Expression.Or l r) facts = Err e <->
     evaluate_expression l facts = Err e \/
     exists v, evaluate_expression l facts = Ok v /\
               evaluate_expression r facts = Err e) /\
  (forall va vb,
     evaluate_expression l facts = Ok va ->
     evaluate_expression r facts = Ok vb ->
     evaluate_expression (Expression.And l r) facts =
       Ok (FactValue.Boolean (is_truthy va && is_truthy vb)) /\
     evaluate_expression (Expression.Or l r) facts =
       Ok (FactValue.Boolean (is_truthy va || is_truthy vb))) /\
  (forall e, evaluate_expression (Expression.Not l) facts = Err e <->
             evaluate_expression l facts = Err e) /\
  (forall v, evaluate_expression l facts = Ok v ->
     evaluate_expression (Expression.Not l) facts =
       Ok (FactValue.Boolean (negb (is_truthy v)))).
Proof.
  cbn [evaluate_expression].
  destruct (evaluate_expression l facts) as [va|el] eqn:Hl;
  destruct (evaluate_expression r facts) as [vb|er] eqn:Hr; cbn;
  repeat split; intros; try congruence;
  repeat match goal with
  | H : _ \/ _ |- _ => destruct H
  | H : exists _, _ |- _ => destruct H
  | H : _ /\ _ |- _ => destruct H
  end; try congruence; eauto.
Qed.

(** C10: [Equal] on two objects, or on two arrays, is always
    [Boolean false] and [NotEqual] [Boolean true], even for identical
    values. *)
Theorem object_array_never_equal (l r : Expression.t) (facts : Facts)
    (va vb : FactValue.t) :
  evaluate_expression l facts = Ok va ->
  evaluate_expression r facts = Ok vb ->
  ((exists o1 o2, va = FactValue.Object o1 /\ vb = FactValue.Object o2) \/
   (exists a1 a2, va = FactValue.Array a1 /\ vb = FactValue.Array a2)) ->
  evaluate_expression (Expression.Equal l r) facts = Ok (FactValue.Boolean false) /\
  evaluate_expression (Expression.NotEqual l r) facts = Ok (FactValue.Boolean true).
Proof.
  intros Hl Hr Hv; eval_operands Hl Hr.
  destruct Hv as [[o1 [o2 [-> ->]]] | [a1 [a2 [-> ->]]]]; split; reflexivity.
Qed.

Lemma object_array_never_equal_witness :
  let o := FactValue.Object [("k", FactValue.Number 1)] in
  let facts : Facts := <["x" := Fact.new "x" o]> ∅ in
  evaluate_expression (Expression.Equal (Expression.Var "x") (Expression.Var "x")) facts
    = Ok (FactValue.Boolean false) /\
  evaluate_expression (Expression.NotEqual (Expression.Var "x") (Expression.Var "x")) facts
    = Ok (FactValue.Boolean true).
Proof.
  intros o facts.
  apply (object_array_never_equal (Expression.Var "x") (Expression.Var "x") facts o o);
    [reflexivity | reflexivity | left; eexists; eexists; split; reflexivity].
Defined.

(** ** Knowledge base *)

Lemma index_consistent_new : index_consistent KnowledgeBase_new.
Proof.
  split; cbn.
  - intros name i H; rewrite lookup_empty in H; discriminate.
  - intros i rule H; rewrite lookup_nil in H; discriminate.
Qed.

Lemma add_rule_consistent (kb : KnowledgeBase) (rule : Rule.t) :
  index_consistent kb -> index_consistent (snd (add_rule kb rule)).
Proof.
  intros [H1 H2]; unfold add_rule.
  case_bool_decide as Hin; [split; assumption|].
  apply eq_None_not_Some in Hin.
  split; cbn.
  - intros name i Hi.
    destruct (decide (Rule.name rule = name)) as [<-|Hne].
    + rewrite lookup_insert_eq in Hi; injection Hi as <-.
      exists rule; split; [|reflexivity].
      rewrite lookup_app_r, Nat.sub_diag by lia; reflexivity.
    + rewrite lookup_insert_ne in Hi by assumption.
      destruct (H1 _ _ Hi) as [r [Hr Hn]].
      exists r; split; [apply lookup_app_l_Some; exact Hr | exact Hn].
  - intros i r Hr.
    destruct (decide (i < length (rules kb))%nat) as [Hlt|Hge].
    + rewrite lookup_app_l in Hr by assumption.
      pose proof (H2 _ _ Hr) as Hidx.
      rewrite lookup_insert_ne; [exact Hidx|].
      intros Heq; rewrite Heq in Hin; congruence.
    + rewrite lookup_app_r in Hr by lia.
      destruct (i - length (rules kb))%nat as [|k] eqn:Hk; cbn in Hr.
      * injection Hr as <-.
        replace i with (length (rules kb)) by lia.
        apply lookup_insert_eq.
      * destruct k; discriminate.
Qed.

(** Removing a present name never hits the panic of [Vec::remove]. *)
Lemma remove_rule_total (kb : KnowledgeBase) (name : string) :
  index_consistent kb -> exists res, remove_rule kb name = Some res.
Proof.
  intros [H1 _]; unfold remove_rule.
  destruct (rule_index kb !! name) as [index|] eqn:Hi; [|eauto].
  destruct (H1 _ _ Hi) as [r [Hr _]]; rewrite Hr; eauto.
Qed.

Lemma remove_rule_consistent (kb : KnowledgeBase) (name : string)
    (removed : option Rule.t) (kb' : KnowledgeBase) :
  index_consistent kb -> remove_rule kb name = Some (removed, kb') ->
  index_consistent kb'.
Proof.
  intros [H1 H2]; unfold remove_rule.
  destruct (rule_index kb !! name) as [index|] eqn:Hi;
    [| intros [= _ <-]; split; assumption].
  destruct (rules kb !! index) as [rule|] eqn:Hr; [|discriminate].
  intros [= _ <-].
  destruct (H1 _ _ Hi) as [rule0 [Hr0 Hn0]].
  rewrite Hr in Hr0; injection Hr0 as <-.
  split; cbn.
  - intros m i' Hm.
    rewrite lookup_fmap in Hm.
    destruct (decide (name = m)) as [<-|Hne];
      [rewrite lookup_delete_eq in Hm; discriminate|].
    rewrite lookup_delete_ne in Hm by assumption.
    destruct (rule_index kb !! m) as [j|] eqn:Hj; [|discriminate].
    injection Hm as <-; unfold shift_index.
    destruct (H1 _ _ Hj) as [r [Hrj Hnr]].
    destruct (Nat.ltb_spec index j) as [Hlt|Hge].
    + exists r; split; [|exact Hnr].
      rewrite list_lookup_delete_ge by lia.
      replace (S (j - 1)) with j by lia; exact Hrj.
    + destruct (decide (j = index)) as [->|Hji].
      * rewrite Hr in Hrj; injection Hrj as <-; congruence.
      * exists r; split; [|exact Hnr].
        rewrite list_lookup_delete_lt by lia; exact Hrj.
  - intros i r Hri.
    rewrite lookup_fmap.
    destruct (decide (i < index)%nat) as [Hlt|Hge].
    + rewrite list_lookup_delete_lt in Hri by assumption.
      pose proof (H2 _ _ Hri) as Hidx.
      rewrite lookup_delete_ne.
      * rewrite Hidx; unfold shift_index; cbn [fmap option_fmap option_map].
        destruct (Nat.ltb_spec index i); [lia | reflexivity].
      * intros Heq; rewrite <- Heq in Hidx; rewrite Hidx in Hi.
        injection Hi; lia.
    + rewrite list_lookup_delete_ge in Hri by lia.
      pose proof (H2 _ _ Hri) as Hidx.
      rewrite lookup_delete_ne.
      * rewrite Hidx; unfold shift_index; cbn [fmap option_fmap option_map].
        destruct (Nat.ltb_spec index (S i)); [f_equal; lia | lia].
      * intros Heq; rewrite <- Heq in Hidx; rewrite Hidx in Hi.
        injection Hi; lia.
Qed.

Lemma reachable_consistent (kb : KnowledgeBase) :
  reachable kb -> index_consistent kb.
Proof.
  induction 1.
  - apply index_consistent_new.
  - apply add_rule_consistent; assumption.
  - eapply remove_rule_consistent; eassumption.
Qed.

(** C8: adding a rule whose name is already stored fails and leaves the
    knowledge base as it was. *)
Theorem add_rule_duplicate_rejected (kb : KnowledgeBase) (rule existing : Rule.t) :
  reachable kb ->
  In existing (rules kb) ->
  Rule.name existing = Rule.name rule ->
  (exists msg, fst (add_rule kb rule) = Err msg) /\
  snd (add_rule kb rule) = kb /\
  len (snd (add_rule kb rule)) = len kb /\
  (forall name, get_rule (snd (add_rule kb rule)) name = get_rule kb name).
Proof.
  intros Hreach Hin Hname.
  destruct (reachable_consistent kb Hreach) as [_ H2].
  apply list_elem_of_In, list_elem_of_lookup in Hin as [i Hi].
  pose proof (H2 _ _ Hi) as Hidx; rewrite Hname in Hidx.
  unfold add_rule; rewrite bool_decide_true by (rewrite Hidx; eauto).
  cbn; split; eauto.
Qed.

Lemma add_rule_duplicate_rejected_witness :
  snd (add_rule sample_kb (sample_rule "r2" 7)) = sample_kb /\
  get_rule (snd (add_rule sample_kb (sample_rule "r2" 7))) "r2"
    = Some (sample_rule "r2" 5).
Proof.
  assert (Hreach : reachable sample_kb)
    by (repeat apply reachable_add; apply reachable_new).
  destruct (add_rule_duplicate_rejected sample_kb (sample_rule "r2" 7) (sample_rule "r2" 5)
              Hreach ltac:(vm_compute; tauto) eq_refl) as [_ [Heq [_ Hget]]].
  split; [exact Heq | rewrite Hget; reflexivity].
Defined.

(** C9: in every knowledge base built by [add_rule] and [remove_rule],
    [get_rule] returns only a rule of the asked name and finds every
    stored rule; [remove_rule] never panics; and it shifts the recorded
    position of every other rule after the removed one down by one. *)
Theorem remove_rule_reindexes (kb : KnowledgeBase) :
  reachable kb ->
  (forall name rule, get_rule kb name = Some rule -> Rule.name rule = name) /\
  (forall rule, In rule (rules kb) -> get_rule kb (Rule.name rule) = Some rule) /\
  (forall name, exists res, remove_rule kb name = Some res) /\
  (forall name index removed kb',
     rule_index kb !! name = Some index ->
     remove_rule kb name = Some (removed, kb') ->
     forall m j, m <> name -> rule_index kb !! m = Some j ->
       rule_index kb' !! m = Some (if Nat.ltb index j then (j - 1)%nat else j)).
Proof.
  intros Hreach.
  pose proof (reachable_consistent kb Hreach) as Hc.
  destruct Hc as [H1 H2] eqn:Hceq.
  split; [|split; [|split]].
  - intros name rule; unfold get_rule.
    destruct (rule_index kb !! name) as [i|] eqn:Hi; cbn; [|discriminate].
    destruct (H1 _ _ Hi) as [r [Hr Hn]]; rewrite Hr; intros [= <-]; exact Hn.
  - intros rule Hin.
    apply list_elem_of_In, list_elem_of_lookup in Hin as [i Hi].
    unfold get_rule; rewrite (H2 _ _ Hi); exact Hi.
  - intros name; apply remove_rule_total; exact Hc.
  - intros name index removed kb' Hi Hrem m j Hne Hj.
    unfold remove_rule in Hrem; rewrite Hi in Hrem.
    destruct (rules kb !! index); [|discriminate].
    injection Hrem as _ <-; cbn.
    rewrite lookup_fmap, lookup_delete_ne, Hj by congruence; reflexivity.
Qed.

Lemma remove_rule_reindexes_witness :
  get_rule sample_kb_removed "r3" = Some (sample_rule "r3" 1) /\
  rule_index sample_kb_removed !! "r3" = Some 1%nat.
Proof.
  assert (Hreach0 : reachable sample_kb)
    by (repeat apply reachable_add; apply reachable_new).
  assert (Hreach : reachable sample_kb_removed).
  { apply (reachable_remove sample_kb "r1" (Some (sample_rule "r1" 1)));
      [exact Hreach0 | reflexivity]. }
  destruct (remove_rule_reindexes sample_kb_removed Hreach) as [_ [Hin _]].
  split; [apply (Hin (sample_rule "r3" 1)); vm_compute; tauto | reflexivity].
Defined.

(** ** Sorting by salience *)

Section SortByKey.
Context {A : Type} (key : A -> Z).

Abbreviation cmp := (by_key_desc key).
Abbreviation desc := (fun a b : A => key b <= key a).

Lemma insert_by_perm (x : A) (ys : list A) :
  Permutation (insert_by cmp x ys) (x :: ys).
Proof.
  induction ys as [|y ys IH]; cbn; [reflexivity|].
  destruct (cmp x y); try reflexivity.
  rewrite IH; apply perm_swap.
Qed.

Lemma sort_by_perm (l : list A) : Permutation (sort_by cmp l) l.
Proof.
  induction l as [|x xs IH]; cbn; [reflexivity|].
  rewrite insert_by_perm, IH; reflexivity.
Qed.

Lemma insert_by_sorted (x : A) (ys : list A) :
  Sorted desc ys -> Sorted desc (insert_by cmp x ys).
Proof.
  unfold by_key_desc.
  induction 1 as [|y ys Hs IH Hhd]; cbn.
  - repeat constructor.
  - destruct (Z.compare_spec (key y) (key x)) as [Heq|Hlt|Hgt].
    + constructor; [constructor; assumption | constructor; lia].
    + constructor; [constructor; assumption | constructor; lia].
    + constructor; [exact IH|].
      destruct ys as [|z zs]; cbn; [constructor; lia|].
      inversion Hhd; subst.
      destruct (Z.compare (key z) (key x)); constructor; lia.
Qed.

Lemma sort_by_sorted (l : list A) : Sorted desc (sort_by cmp l).
Proof.
  induction l as [|x xs IH]; cbn; [constructor|].
  apply insert_by_sorted; exact IH.
Qed.

Lemma insert_by_filter (s : Z) (x : A) (ys : list A) :
  List.filter (fun r => Z.eqb (key r) s) (insert_by cmp x ys) =
  if Z.eqb (key x) s then x :: List.filter (fun r => Z.eqb (key r) s) ys
  else List.filter (fun r => Z.eqb (key r) s) ys.
Proof.
  unfold by_key_desc.
  induction ys as [|y ys IH]; cbn.
  - destruct (Z.eqb (key x) s); reflexivity.
  - destruct (Z.compare_spec (key y) (key x)) as [Heq|Hlt|Hgt];
      try (cbn; destruct (Z.eqb (key x) s); reflexivity).
    cbn; rewrite IH.
    destruct (Z.eqb_spec (key y) s), (Z.eqb_spec (key x) s); try reflexivity; lia.
Qed.

Lemma sort_by_filter (s : Z) (l : list A) :
  List.filter (fun r => Z.eqb (key r) s) (sort_by cmp l) =
  List.filter (fun r => Z.eqb (key r) s) l.
Proof.
  induction l as [|x xs IH]; cbn; [reflexivity|].
  rewrite insert_by_filter, IH; reflexivity.
Qed.
End SortByKey.

(** C2: [get_rules_sorted_by_salience] returns all stored rules, in
    non-increasing salience order, and the rules of any one salience in
    their insertion order (stability). *)
Theorem sorted_by_salience_stable (kb : KnowledgeBase) :
  Permutation (get_rules_sorted_by_salience kb) (rules kb) /\
  Sorted (fun a b => Rule.salience b <= Rule.salience a)
    (get_rules_sorted_by_salience kb) /\
  (forall s, List.filter (fun r => Z.eqb (Rule.salience r) s)
               (get_rules_sorted_by_salience kb) =
             List.filter (fun r => Z.eqb (Rule.salience r) s) (rules kb)).
Proof.
  unfold get_rules_sorted_by_salience; split; [|split].
  - apply (sort_by_perm Rule.salience).
  - apply (sort_by_sorted Rule.salience).
  - intros s; apply (sort_by_filter Rule.salience).
Qed.

(** ** The execution pass *)

Lemma execute_action_err_state (action : Expression.t) (facts facts' : Facts)
    (e : EngineError) :
  execute_action action facts = (Err e, facts') -> facts' = facts.
Proof.
  destruct action; cbn; try congruence;
    repeat match goal with
    | |- context [match ?x with _ => _ end] => destruct x
    end; congruence.
Qed.

Lemma execute_actions_app (acts1 acts2 : list Expression.t) (facts : Facts) :
  execute_actions (acts1 ++ acts2) facts =
  match execute_actions acts1 facts with
  | (Ok _, facts') => execute_actions acts2 facts'
  | (Err e, facts') => (Err e, facts')
  end.
Proof.
  revert facts; induction acts1 as [|a acts1 IH]; intros facts; cbn; [reflexivity|].
  destruct (execute_action a facts) as [[[]|e] facts']; [apply IH | reflexivity].
Qed.

Lemma execute_rules_app (rs1 rs2 : list Rule.t) (fired : list string) (facts : Facts) :
  execute_rules (rs1 ++ rs2) fired facts =
  match execute_rules rs1 fired facts with
  | (Ok fired', facts') => execute_rules rs2 fired' facts'
  | (Err e, facts') => (Err e, facts')
  end.
Proof.
  revert fired facts; induction rs1 as [|r rs1 IH]; intros fired facts; cbn;
    [reflexivity|].
  destruct (evaluate_condition (Rule.when_condition r) facts) as [[]|e];
    [|apply IH|reflexivity].
  destruct (execute_actions (Rule.then_actions r) facts) as [[[]|e] facts'];
    [apply IH | reflexivity].
Qed.

(** C1: let the rules before [rule] in salience order run to completion
    from [facts0], leaving [facts1].  If [rule]'s guard then fails with
    [e], [execute] returns [Err e] (no [ExecutionResult]) with the fact
    mapping [facts1].  If the guard holds and the action [action] of
    [rule] fails with [e] after the earlier actions [acts_pre] of [rule]
    left [facts2], [execute] returns [Err e] with [facts2]: nothing is
    rolled back and nothing after the failing step runs. *)
Theorem execute_error_no_rollback (kb : KnowledgeBase) (facts0 facts1 : Facts)
    (elapsed_ms : Z) (pre post : list Rule.t) (rule : Rule.t)
    (fired : list string) (e : EngineError) :
  get_rules_sorted_by_salience kb = pre ++ rule :: post ->
  execute_rules pre [] facts0 = (Ok fired, facts1) ->
  (evaluate_condition (Rule.when_condition rule) facts1 = Err e ->
   execute kb facts0 elapsed_ms = (Err e, facts1)) /\
  (forall acts_pre action acts_post facts2,
     evaluate_condition (Rule.when_condition rule) facts1 = Ok true ->
     Rule.then_actions rule = acts_pre ++ action :: acts_post ->
     execute_actions acts_pre facts1 = (Ok tt, facts2) ->
     fst (execute_action action facts2) = Err e ->
     execute kb facts0 elapsed_ms = (Err e, facts2)).
Proof.
  intros Hsorted Hpre.
  unfold execute; rewrite Hsorted, execute_rules_app, Hpre; cbn.
  split.
  - intros Hg; rewrite Hg; reflexivity.
  - intros acts_pre action acts_post facts2 Hg Hacts Hpre_acts Hfail.
    rewrite Hg, Hacts, execute_actions_app, Hpre_acts; cbn.
    destruct (execute_action action facts2) as [r facts3] eqn:Ha.
    cbn in Hfail; subst r.
    apply execute_action_err_state in Ha; subst facts3; reflexivity.
Qed.

Lemma execute_error_no_rollback_witness :
  execute failing_kb ∅ 0 =
    (Err (UnknownVariable "missing"),
     <["y" := Fact.new "y" (FactValue.Number 2)]>
       (<["x" := Fact.new "x" (FactValue.Number 1)]> ∅)).
Proof.
  destruct (execute_error_no_rollback failing_kb ∅
              (<["x" := Fact.new "x" (FactValue.Number 1)]> ∅) 0
              [failing_first] [] failing_second ["first"]%string
              (UnknownVariable "missing") eq_refl eq_refl) as [_ H].
  apply (H [Expression.Assignment "y" (Expression.Number 2)]
           (Expression.Assignment "z" (Expression.Var "missing"))
           [Expression.Assignment "w" (Expression.Number 3)]);
    reflexivity.
Defined.

(** ** Parser: string lemmas *)

Lemma substring_length_le (n m : nat) (s : string) :
  (String.length (String.substring n m s) <= m)%nat /\
  (String.length (String.substring n m s) <= String.length s - n)%nat.
Proof.
  revert n m; induction s as [|c s IH]; intros n m;
    destruct n as [|n], m as [|m]; cbn [String.substring String.length]; try lia.
  - destruct (IH 0%nat m); lia.
  - destruct (IH n 0%nat); lia.
  - destruct (IH n (S m)); lia.
Qed.

Lemma length_list_ascii_of_string (s : string) :
  length (String.list_ascii_of_string s) = String.length s.
Proof. induction s; cbn; congruence. Qed.

Lemma length_string_of_list_ascii (l : list ascii) :
  String.length (String.string_of_list_ascii l) = length l.
Proof. induction l; cbn; congruence. Qed.

Lemma drop_ws_length (l : list ascii) : (length (drop_ws l) <= length l)%nat.
Proof. induction l as [|c l IH]; cbn; [lia|]; destruct (is_ws c); cbn; lia. Qed.

Lemma trim_length_le (s : string) : (String.length (trim s) <= String.length s)%nat.
Proof.
  unfold trim; rewrite length_string_of_list_ascii, length_rev.
  etransitivity; [apply drop_ws_length|]; rewrite length_rev.
  etransitivity; [apply drop_ws_length|]; rewrite length_list_ascii_of_string; lia.
Qed.

(** [find] returns the first occurrence. *)
Lemma find_first (needle hay : string) (p : nat) :
  find needle hay = Some p ->
  String.substring p (String.length needle) hay = needle /\
  (forall q, (q < p)%nat -> String.substring q (String.length needle) hay <> needle).
Proof.
  revert p; induction hay as [|c rest IH]; intros p; cbn [find].
  - destruct (String.prefix needle EmptyString) eqn:Hp; [|discriminate].
    intros [= <-]; split; [apply String.prefix_correct; exact Hp | lia].
  - destruct (String.prefix needle (String c rest)) eqn:Hp.
    + intros [= <-]; split; [apply String.prefix_correct; exact Hp | lia].
    + destruct (find needle rest) as [p'|] eqn:Hf; cbn [option_map]; [|discriminate].
      intros [= <-]; destruct (IH p' eq_refl) as [Hat Hbefore]; split.
      * exact Hat.
      * intros [|q] Hq.
        -- intros Heq; apply String.prefix_correct in Heq; congruence.
        -- apply Hbefore; lia.
Qed.

Lemma find_bound (needle hay : string) (p : nat) :
  (0 < String.length needle)%nat -> find needle hay = Some p ->
  (p + String.length needle <= String.length hay)%nat.
Proof.
  intros Hpos Hf; destruct (find_first _ _ _ Hf) as [Hat _].
  destruct (substring_length_le p (String.length needle) hay) as [_ Hle].
  rewrite Hat in Hle; lia.
Qed.

Lemma slice_to_length (p : nat) (s : string) :
  (String.length (slice_to p s) <= p)%nat.
Proof. unfold slice_to; apply substring_length_le. Qed.

Lemma slice_from_length (p : nat) (s : string) :
  (String.length (slice_from p s) <= String.length s - p)%nat.
Proof. unfold slice_from; apply substring_length_le. Qed.

(** Any fuel above the text length gives the same result. *)
Lemma parse_condition_fuel_irrel (n m : nat) (t : string) :
  (String.length t < n)%nat -> (String.length t < m)%nat ->
  parse_condition_fuel n t = parse_condition_fuel m t.
Proof.
  revert m t; induction n as [|n IH]; intros m t Hn Hm; [lia|].
  destruct m as [|m]; [lia|].
  cbn [parse_condition_fuel].
  pose proof (trim_length_le t) as Htr.
  destruct (find " && " (trim t)) as [p|] eqn:Hand.
  - pose proof (find_bound " && " (trim t) p ltac:(cbn; lia) Hand) as Hb; cbn [String.length] in Hb.
    pose proof (slice_to_length p (trim t)).
    pose proof (slice_from_length (p + 4) (trim t)).
    rewrite (IH m (slice_to p (trim t))), (IH m (slice_from (p + 4) (trim t))) by lia.
    reflexivity.
  - destruct (find " || " (trim t)) as [p|] eqn:Hor; [|reflexivity].
    pose proof (find_bound " || " (trim t) p ltac:(cbn; lia) Hor) as Hb; cbn [String.length] in Hb.
    pose proof (slice_to_length p (trim t)).
    pose proof (slice_from_length (p + 4) (trim t)).
    rewrite (IH m (slice_to p (trim t))), (IH m (slice_from (p + 4) (trim t))) by lia.
    reflexivity.
Qed.

(** C5 (as stated fails): [a && b && c] parses right-nested,
    [And(a, And(b, c))], not [And(And(a, b), c)]. *)
Lemma parse_condition_right_nested :
  parse_condition "a == x && b == y && c == z" =
    Done (Ok (Expression.And cond_a (Expression.And cond_b cond_c))) /\
  parse_condition "a == x && b == y && c == z" <>
    Done (Ok (Expression.And (Expression.And cond_a cond_b) cond_c)).
Proof.
  assert (H : parse_condition "a == x && b == y && c == z" =
                Done (Ok (Expression.And cond_a (Expression.And cond_b cond_c))))
    by (vm_compute; reflexivity).
  split; [exact H | rewrite H; discriminate].
Qed.

Lemma parse_condition_split (t : string) (needle : string) (p : nat) :
  String.length needle = 4%nat ->
  find needle (trim t) = Some p ->
  (String.length (slice_to p (trim t)) < String.length t)%nat /\
  (String.length (slice_from (p + 4) (trim t)) < String.length t)%nat.
Proof.
  intros Hlen Hf.
  pose proof (find_bound needle (trim t) p ltac:(lia) Hf) as Hb.
  pose proof (trim_length_le t).
  pose proof (slice_to_length p (trim t)).
  pose proof (slice_from_length (p + 4) (trim t)).
  split; lia.
Qed.

(** C5 (amended): [parse_condition] trims its text and splits it at the
    first occurrence of [" && "], parsing the text before and the text
    after it; only when there is no [" && "] does it split at the first
    [" || "] in the same way.  So several occurrences of one connective
    nest to the right: [a && b && c] is [And(a, And(b, c))]. *)
Theorem parse_condition_first_split (t : string) :
  (forall p, find " && " (trim t) = Some p ->
     String.substring p 4 (trim t) = " && " /\
     (forall q, (q < p)%nat -> String.substring q 4 (trim t) <> " && ") /\
     parse_condition t =
       (let?? left := parse_condition (slice_to p (trim t)) in
        let?? right := parse_condition (slice_from (p + 4) (trim t)) in
        Done (Ok (Expression.And left right)))) /\
  (find " && " (trim t) = None ->
   forall p, find " || " (trim t) = Some p ->
     String.substring p 4 (trim t) = " || " /\
     (forall q, (q < p)%nat -> String.substring q 4 (trim t) <> " || ") /\
     parse_condition t =
       (let?? left := parse_condition (slice_to p (trim t)) in
        let?? right := parse_condition (slice_from (p + 4) (trim t)) in
        Done (Ok (Expression.Or left right)))) /\
  parse_condition "a == x && b == y && c == z" =
    Done (Ok (Expression.And cond_a (Expression.And cond_b cond_c))).
Proof.
  split; [|split].
  - intros p Hf.
    destruct (find_first _ _ _ Hf) as [Hat Hbefore].
    split; [exact Hat | split; [exact Hbefore|]].
    destruct (parse_condition_split t " && " p eq_refl Hf) as [H1 H2].
    unfold parse_condition at 1; cbn [parse_condition_fuel]; rewrite Hf.
    rewrite (parse_condition_fuel_irrel (String.length t)
               (S (String.length (slice_to p (trim t)))) (slice_to p (trim t))),
            (parse_condition_fuel_irrel (String.length t)
               (S (String.length (slice_from (p + 4) (trim t))))
               (slice_from (p + 4) (trim t))) by lia.
    reflexivity.
  - intros Hnone p Hf.
    destruct (find_first _ _ _ Hf) as [Hat Hbefore].
    split; [exact Hat | split; [exact Hbefore|]].
    destruct (parse_condition_split t " || " p eq_refl Hf) as [H1 H2].
    unfold parse_condition at 1; cbn [parse_condition_fuel]; rewrite Hnone, Hf.
    rewrite (parse_condition_fuel_irrel (String.length t)
               (S (String.length (slice_to p (trim t)))) (slice_to p (trim t))),
            (parse_condition_fuel_irrel (String.length t)
               (S (String.length (slice_from (p + 4) (trim t))))
               (slice_from (p + 4) (trim t))) by lia.
    reflexivity.
  - vm_compute; reflexivity.
Qed.

(** ** Further properties: the evaluator *)

(** Every binary node evaluates its left operand first and then its right
    operand, and an error of either is returned unchanged: a failing left
    operand hides any error of the right one. *)
Theorem binary_ops_left_first (l r : Expression.t) (facts : Facts) :
  forall op, In op binary_ops ->
  (forall e, evaluate_expression l facts = Err e ->
     evaluate_expression (op l r) facts = Err e) /\
  (forall va e, evaluate_expression l facts = Ok va ->
     evaluate_expression r facts = Err e ->
     evaluate_expression (op l r) facts = Err e).
Proof.
  intros op Hop; unfold binary_ops in Hop;
    repeat (destruct Hop as [<- | Hop]; [|]); [..| destruct Hop];
    (split; [intros e He | intros va e Hl Hr]);
    cbn [evaluate_expression]; rewrite ?He, ?Hl; cbn [bind_result];
    rewrite ?Hr; reflexivity.
Qed.

Lemma binary_ops_left_first_witness :
  evaluate_expression
    (Expression.Divide (Expression.Var "a") (Expression.Divide (Expression.Number 1)
                                                               (Expression.Number 0))) ∅
  = Err (UnknownVariable "a").
Proof.
  apply (proj1 (binary_ops_left_first (Expression.Var "a")
                  (Expression.Divide (Expression.Number 1) (Expression.Number 0)) ∅
                  Expression.Divide ltac:(cbn; tauto)) (UnknownVariable "a")).
  reflexivity.
Defined.

(** [Subtract] and [Multiply] succeed only on two numbers, with the IEEE
    difference and product; every other pairing, two strings included,
    fails with [TypeError]. *)
Theorem subtract_multiply_numbers_only (l r : Expression.t) (facts : Facts)
    (va vb : FactValue.t) :
  evaluate_expression l facts = Ok va ->
  evaluate_expression r facts = Ok vb ->
  (forall a b, va = FactValue.Number a -> vb = FactValue.Number b ->
     evaluate_expression (Expression.Subtract l r) facts =
       Ok (FactValue.Number (PrimFloat.sub a b)) /\
     evaluate_expression (Expression.Multiply l r) facts =
       Ok (FactValue.Number (PrimFloat.mul a b))) /\
  ((~ exists a b, va = FactValue.Number a /\ vb = FactValue.Number b) ->
   (exists msg, evaluate_expression (Expression.Subtract l r) facts = Err (TypeError msg)) /\
   (exists msg, evaluate_expression (Expression.Multiply l r) facts = Err (TypeError msg))).
Proof.
  intros Hl Hr; split.
  - intros a b -> ->; split; eval_operands Hl Hr; reflexivity.
  - intros Hn; split; eval_operands Hl Hr; unfold num_op;
      destruct va, vb; eauto; exfalso; apply Hn; eauto.
Qed.

Lemma subtract_multiply_numbers_only_witness :
  exists msg, evaluate_expression (Expression.Subtract (Expression.String "ab")
                                                       (Expression.String "b")) ∅
              = Err (TypeError msg).
Proof.
  apply (proj2 (subtract_multiply_numbers_only (Expression.String "ab")
                  (Expression.String "b") ∅ (FactValue.String "ab") (FactValue.String "b")
                  eq_refl eq_refl)).
  intros [a [b [H _]]]; discriminate.
Defined.

(** Evaluation reads the fact mapping only at the variables of the
    expression: two mappings that agree there give the same result. *)
Theorem evaluate_reads_only_vars (e : Expression.t) (facts1 facts2 : Facts) :
  (forall x, In x (expr_vars e) -> facts1 !! x = facts2 !! x) ->
  evaluate_expression e facts1 = evaluate_expression e facts2.
Proof.
  induction e; cbn [expr_vars evaluate_expression]; intros H; try reflexivity;
    try (rewrite IHe by exact H; reflexivity);
    try (rewrite IHe1, IHe2 by (intros x Hx; apply H; apply in_or_app; auto);
         reflexivity).
  rewrite (H name (or_introl eq_refl)); reflexivity.
Qed.

Lemma evaluate_reads_only_vars_witness :
  evaluate_expression (Expression.Add (Expression.Var "x") (Expression.Number 1))
    (<["x" := Fact.new "x" (FactValue.Number 2)]> ∅) =
  evaluate_expression (Expression.Add (Expression.Var "x") (Expression.Number 1))
    (<["y" := Fact.new "y" FactValue.Null]> (<["x" := Fact.new "x" (FactValue.Number 2)]> ∅)).
Proof.
  apply evaluate_reads_only_vars.
  intros x [<- | []]; reflexivity.
Defined.

(** ** Further properties: facts and field access *)

Lemma obj_get_insert_eq (obj : list (string * FactValue.t)) (k : string) (v : FactValue.t) :
  obj_get (obj_insert obj k v) k = Some v.
Proof.
  induction obj as [|[k' v'] rest IH]; cbn.
  - rewrite String.eqb_refl; reflexivity.
  - destruct (String.eqb k' k) eqn:E; cbn; rewrite E; [reflexivity | exact IH].
Qed.

Lemma obj_get_insert_ne (obj : list (string * FactValue.t)) (k k' : string) (v : FactValue.t) :
  k' <> k -> obj_get (obj_insert obj k v) k' = obj_get obj k'.
Proof.
  intros Hne; induction obj as [|[a b] rest IH]; cbn.
  - destruct (String.eqb_spec k k'); [congruence | reflexivity].
  - destruct (String.eqb_spec a k) as [->|Hak]; cbn.
    + destruct (String.eqb_spec k k'); [congruence | reflexivity].
    + destruct (String.eqb a k'); [reflexivity | exact IH].
Qed.

(** [Fact::set_field] succeeds exactly on an object fact; after it,
    [get_field] of that field is the new value, every other field is as
    before, and the fact keeps its name. *)
Theorem set_field_get_field (f : Fact.t) (k : string) (v : FactValue.t) :
  (forall f', Fact.set_field f k v = Ok f' ->
     Fact.get_field f' k = Some v /\
     (forall k', k' <> k -> Fact.get_field f' k' = Fact.get_field f k') /\
     Fact.name f' = Fact.name f) /\
  ((exists obj, Fact.value f = FactValue.Object obj) <->
   exists f', Fact.set_field f k v = Ok f').
Proof.
  unfold Fact.set_field, Fact.get_field; split.
  - intros f'; destruct (Fact.value f) eqn:Hv; try discriminate.
    intros [= <-]; cbn; split; [apply obj_get_insert_eq | split; [|reflexivity]].
    intros k' Hk; apply obj_get_insert_ne; exact Hk.
  - split.
    + intros [obj ->]; eauto.
    + destruct (Fact.value f); intros [f' H]; try discriminate; eauto.
Qed.

(** A field access on a stored fact agrees with [Fact::get_field]; a miss
    is an [EvaluationError] on an object and a [TypeError] on any other
    value; an absent fact is an [UnknownVariable]. *)
Theorem field_access_get_field (facts : Facts) (name field : string) :
  (forall f x, facts !! name = Some f ->
     evaluate_expression (Expression.FieldAccess (Expression.Var name) field) facts = Ok x <->
     Fact.get_field f field = Some x) /\
  (forall f obj, facts !! name = Some f -> Fact.value f = FactValue.Object obj ->
     Fact.get_field f field = None ->
     exists msg, evaluate_expression (Expression.FieldAccess (Expression.Var name) field) facts
                 = Err (EvaluationError msg)) /\
  (forall f, facts !! name = Some f -> (forall obj, Fact.value f <> FactValue.Object obj) ->
     evaluate_expression (Expression.FieldAccess (Expression.Var name) field) facts
     = Err (TypeError "Cannot access field on non-object")) /\
  (facts !! name = None ->
   evaluate_expression (Expression.FieldAccess (Expression.Var name) field) facts
   = Err (UnknownVariable name)).
Proof.
  unfold Fact.get_field; cbn [evaluate_expression]; split; [|split; [|split]].
  - intros f x ->; cbn [bind_result].
    destruct (Fact.value f); try (split; discriminate).
    destruct (obj_get obj field); split; congruence.
  - intros f obj -> Hv; cbn [bind_result]; rewrite Hv; intros ->; eauto.
  - intros f -> Hn; cbn [bind_result].
    destruct (Fact.value f) eqn:Hv; try reflexivity.
    exfalso; exact (Hn _ eq_refl).
  - intros ->; reflexivity.
Qed.

Lemma field_access_get_field_witness :
  <["p" := Fact.new "p" (FactValue.Number 1)]> (∅ : Facts) !! "p" =
    Some (Fact.new "p" (FactValue.Number 1)) /\
  evaluate_expression (Expression.FieldAccess (Expression.Var "p") "age")
    (<["p" := Fact.new "p" (FactValue.Number 1)]> ∅)
  = Err (TypeError "Cannot access field on non-object").
Proof.
  split; [apply lookup_insert_eq|].
  apply (proj1 (proj2 (proj2 (field_access_get_field
           (<["p" := Fact.new "p" (FactValue.Number 1)]> ∅) "p" "age")))
           (Fact.new "p" (FactValue.Number 1)) (lookup_insert_eq _ _ _)).
  intros obj H; discriminate.
Defined.

(** ** Further properties: actions *)

(** An [Assignment] evaluates its value first: on an error the facts are
    untouched; otherwise the variable then reads back as the value (the
    fact is created or replaced) and every other fact is unchanged. *)
Theorem execute_assignment_roundtrip (x : string) (ve : Expression.t) (facts : Facts) :
  (forall e, evaluate_expression ve facts = Err e ->
     execute_action (Expression.Assignment x ve) facts = (Err e, facts)) /\
  (forall v, evaluate_expression ve facts = Ok v ->
     exists facts', execute_action (Expression.Assignment x ve) facts = (Ok tt, facts') /\
       evaluate_expression (Expression.Var x) facts' = Ok v /\
       (forall y, y <> x -> facts' !! y = facts !! y)).
Proof.
  cbn [execute_action]; split.
  - intros e ->; reflexivity.
  - intros v ->; eexists; split; [reflexivity|]; split.
    + cbn; rewrite lookup_insert_eq; reflexivity.
    + intros y Hy; apply lookup_insert_ne; congruence.
Qed.

Lemma execute_assignment_roundtrip_witness :
  evaluate_expression (Expression.Var "y")
    (snd (execute_action (Expression.Assignment "y" (Expression.Number 10)) ∅))
  = Ok (FactValue.Number 10).
Proof.
  destruct (proj2 (execute_assignment_roundtrip "y" (Expression.Number 10) ∅)
              (FactValue.Number 10) eq_refl) as [facts' [-> [H _]]].
  exact H.
Defined.

(** A [FieldAssignment] whose value evaluates fails with
    [UnknownVariable] on an absent fact and with an [EvaluationError] on a
    non-object fact, both leaving the facts untouched; on an object fact
    the field then reads back as the value, its other fields read as
    before and every other fact is unchanged. *)
Theorem execute_field_assignment (o fld : string) (ve : Expression.t) (facts : Facts)
    (v : FactValue.t) :
  evaluate_expression ve facts = Ok v ->
  (facts !! o = None ->
   execute_action (Expression.FieldAssignment o fld ve) facts
   = (Err (UnknownVariable o), facts)) /\
  (forall f, facts !! o = Some f -> (forall obj, Fact.value f <> FactValue.Object obj) ->
   execute_action (Expression.FieldAssignment o fld ve) facts
   = (Err (EvaluationError "Cannot set field on non-object fact"), facts)) /\
  (forall f obj, facts !! o = Some f -> Fact.value f = FactValue.Object obj ->
   exists facts', execute_action (Expression.FieldAssignment o fld ve) facts = (Ok tt, facts') /\
     evaluate_expression (Expression.FieldAccess (Expression.Var o) fld) facts' = Ok v /\
     (forall fld', fld' <> fld ->
        evaluate_expression (Expression.FieldAccess (Expression.Var o) fld') facts' =
        evaluate_expression (Expression.FieldAccess (Expression.Var o) fld') facts) /\
     (forall y, y <> o -> facts' !! y = facts !! y)).
Proof.
  intros Hv; cbn [execute_action]; rewrite Hv; split; [|split].
  - intros ->; reflexivity.
  - intros f -> Hn; unfold Fact.set_field.
    destruct (Fact.value f) eqn:Hfv; try reflexivity.
    exfalso; exact (Hn _ eq_refl).
  - intros f obj Hf Hobj; rewrite Hf; unfold Fact.set_field; rewrite Hobj.
    eexists; split; [reflexivity|]; split; [|split].
    + cbn; rewrite lookup_insert_eq; cbn; rewrite obj_get_insert_eq; reflexivity.
    + intros fld' Hne; cbn; rewrite lookup_insert_eq, Hf; cbn; rewrite Hobj.
      rewrite obj_get_insert_ne by exact Hne; reflexivity.
    + intros y Hy; apply lookup_insert_ne; congruence.
Qed.

Lemma execute_field_assignment_witness :
  execute_action (Expression.FieldAssignment "p" "age" (Expression.Number 3)) ∅
  = (Err (UnknownVariable "p"), ∅).
Proof.
  apply (proj1 (execute_field_assignment "p" "age" (Expression.Number 3) ∅
                  (FactValue.Number 3) eq_refl)).
  reflexivity.
Defined.

(** ** Further properties: the knowledge base *)

Lemma reachable_names_nodup (kb : KnowledgeBase) :
  reachable kb -> NoDup (Rule.name <$> rules kb).
Proof.
  intros Hr; destruct (reachable_consistent kb Hr) as [_ H2].
  apply NoDup_alt; intros i j n Hi Hj.
  rewrite list_lookup_fmap in Hi, Hj.
  destruct (rules kb !! i) as [ri|] eqn:Hri; [|discriminate].
  destruct (rules kb !! j) as [rj|] eqn:Hrj; [|discriminate].
  injection Hi as Hi; injection Hj as Hj.
  pose proof (H2 _ _ Hri) as Ii; pose proof (H2 _ _ Hrj) as Ij.
  rewrite Hi in Ii; rewrite Hj in Ij; congruence.
Qed.

(** In every reachable knowledge base the stored rule names are
    pairwise distinct. *)
Theorem reachable_names_unique (kb : KnowledgeBase) :
  reachable kb -> NoDup (Rule.name <$> rules kb).
Proof. apply reachable_names_nodup. Qed.

Lemma sample_kb_reachable : reachable sample_kb.
Proof. unfold sample_kb; repeat apply reachable_add; apply reachable_new. Qed.

Lemma reachable_names_unique_witness :
  reachable sample_kb /\ NoDup (Rule.name <$> rules sample_kb).
Proof.
  split; [apply sample_kb_reachable|].
  apply reachable_names_unique; apply sample_kb_reachable.
Defined.

(** Adding a rule under a name no stored rule has succeeds: the rule is
    appended to [get_rules], the length grows by one, [get_rule] of its
    name returns it, and every other name looks up as before. *)
Theorem add_rule_fresh_roundtrip (kb : KnowledgeBase) (rule : Rule.t) :
  reachable kb ->
  (forall r, In r (rules kb) -> Rule.name r <> Rule.name rule) ->
  exists kb', add_rule kb rule = (Ok tt, kb') /\
    rules kb' = rules kb ++ [rule] /\
    len kb' = S (len kb) /\
    get_rule kb' (Rule.name rule) = Some rule /\
    (forall n, n <> Rule.name rule -> get_rule kb' n = get_rule kb n).
Proof.
  intros Hr Hfresh; destruct (reachable_consistent kb Hr) as [H1 H2].
  assert (Hnone : rule_index kb !! Rule.name rule = None).
  { destruct (rule_index kb !! Rule.name rule) as [i|] eqn:Hi; [|reflexivity].
    destruct (H1 _ _ Hi) as [r [Hri Hn]].
    exfalso; apply (Hfresh r); [|exact Hn].
    apply list_elem_of_In, list_elem_of_lookup; eauto. }
  unfold add_rule; rewrite Hnone; cbn.
  eexists; split; [reflexivity|]; split; [reflexivity|]; split.
  - unfold len; cbn; rewrite length_app; cbn; lia.
  - split.
    + unfold get_rule; cbn; rewrite lookup_insert_eq; cbn.
      rewrite lookup_app_r, Nat.sub_diag by lia; reflexivity.
    + intros n Hn; unfold get_rule; cbn.
      rewrite lookup_insert_ne by congruence.
      destruct (rule_index kb !! n) as [i|] eqn:Hi; cbn; [|reflexivity].
      destruct (H1 _ _ Hi) as [r [Hri _]].
      rewrite Hri; apply lookup_app_l_Some; exact Hri.
Qed.

Lemma add_rule_fresh_roundtrip_witness :
  get_rule (snd (add_rule sample_kb (sample_rule "r4" 7))) "r4" = Some (sample_rule "r4" 7).
Proof.
  destruct (add_rule_fresh_roundtrip sample_kb (sample_rule "r4" 7) sample_kb_reachable)
    as [kb' [-> [_ [_ [H _]]]]].
  - intros r Hr; vm_compute in Hr.
    destruct Hr as [<- | [<- | [<- | []]]]; discriminate.
  - exact H.
Defined.

(** [remove_rule] of an absent name returns [None] and changes nothing;
    of a present name it returns exactly the rule [get_rule] returned,
    after which the name is gone, the length drops by one, and every
    other name still looks up the same rule. *)
Theorem remove_rule_roundtrip (kb : KnowledgeBase) (n : string) :
  reachable kb ->
  (get_rule kb n = None -> remove_rule kb n = Some (None, kb)) /\
  (forall r, get_rule kb n = Some r ->
     exists kb', remove_rule kb n = Some (Some r, kb') /\
       get_rule kb' n = None /\
       len kb' = (len kb - 1)%nat /\
       (forall m, m <> n -> get_rule kb' m = get_rule kb m)).
Proof.
  intros Hr; destruct (reachable_consistent kb Hr) as [H1 H2].
  unfold get_rule, remove_rule.
  destruct (rule_index kb !! n) as [i|] eqn:Hi; cbn.
  - destruct (H1 _ _ Hi) as [ri [Hri Hni]]; rewrite Hri; cbn.
    split; [discriminate|].
    intros r [= <-].
    eexists; split; [reflexivity|]; split; [|split].
    + cbn; rewrite lookup_fmap, lookup_delete_eq; reflexivity.
    + unfold len; cbn; apply length_delete; rewrite Hri; eauto.
    + intros m Hm; cbn.
      rewrite lookup_fmap, lookup_delete_ne by congruence.
      destruct (rule_index kb !! m) as [j|] eqn:Hj; cbn; [|reflexivity].
      destruct (H1 _ _ Hj) as [rj [Hrj Hnj]].
      unfold shift_index; destruct (Nat.ltb_spec i j) as [Hlt|Hge].
      * rewrite list_lookup_delete_ge by lia.
        replace (S (j - 1)) with j by lia; reflexivity.
      * destruct (decide (j = i)) as [->|Hji].
        -- rewrite Hri in Hrj; injection Hrj as <-; congruence.
        -- rewrite list_lookup_delete_lt by lia; reflexivity.
  - split; [reflexivity | discriminate].
Qed.

Lemma remove_rule_roundtrip_witness :
  remove_rule sample_kb "r1" = Some (Some (sample_rule "r1" 1), sample_kb_removed) /\
  get_rule sample_kb_removed "r3" = Some (sample_rule "r3" 1).
Proof.
  destruct (proj2 (remove_rule_roundtrip sample_kb "r1" sample_kb_reachable)
              (sample_rule "r1" 1) ltac:(vm_compute; reflexivity))
    as [kb' [Hrm [_ [_ Hother]]]].
  assert (Hkb : kb' = sample_kb_removed)
    by (unfold sample_kb_removed; rewrite Hrm; reflexivity).
  subst kb'; split; [exact Hrm|].
  rewrite (Hother "r3" ltac:(discriminate)); vm_compute; reflexivity.
Defined.

Lemma fresh_name_not_indexed (kb : KnowledgeBase) (rule : Rule.t) :
  index_consistent kb ->
  (forall r, In r (rules kb) -> Rule.name r <> Rule.name rule) ->
  rule_index kb !! Rule.name rule = None.
Proof.
  intros [H1 _] Hfresh.
  destruct (rule_index kb !! Rule.name rule) as [i|] eqn:Hi; [|reflexivity].
  destruct (H1 _ _ Hi) as [r [Hri Hn]].
  exfalso; apply (Hfresh r); [|exact Hn].
  apply list_elem_of_In, list_elem_of_lookup; eauto.
Qed.

(** Adding a rule under a fresh name and then removing that name gives
    back the rule and exactly the knowledge base before the add. *)
Theorem add_then_remove_restores (kb : KnowledgeBase) (rule : Rule.t) :
  reachable kb ->
  (forall r, In r (rules kb) -> Rule.name r <> Rule.name rule) ->
  remove_rule (snd (add_rule kb rule)) (Rule.name rule) = Some (Some rule, kb).
Proof.
  intros Hr Hfresh; pose proof (reachable_consistent kb Hr) as Hc.
  pose proof (fresh_name_not_indexed kb rule Hc Hfresh) as Hnone.
  destruct Hc as [H1 _].
  assert (Hadd : snd (add_rule kb rule) =
    {| rules := rules kb ++ [rule];
       rule_index := <[Rule.name rule := length (rules kb)]> (rule_index kb) |})
    by (unfold add_rule; rewrite Hnone; reflexivity).
  rewrite Hadd; unfold remove_rule; cbn [rule_index rules].
  rewrite lookup_insert_eq, lookup_app_r, Nat.sub_diag by lia; cbn.
  rewrite delete_insert_id by exact Hnone.
  rewrite (delete_middle (rules kb) [] rule), app_nil_r.
  assert (Hidx : shift_index (length (rules kb)) <$> rule_index kb = rule_index kb).
  { apply map_eq; intros m; rewrite lookup_fmap.
    destruct (rule_index kb !! m) as [j|] eqn:Hm; cbn; [|reflexivity].
    destruct (H1 _ _ Hm) as [r [Hrj _]].
    apply lookup_lt_Some in Hrj.
    unfold shift_index; destruct (Nat.ltb_spec (length (rules kb)) j); [lia | reflexivity]. }
  rewrite Hidx; destruct kb; reflexivity.
Qed.

Lemma add_then_remove_restores_witness :
  remove_rule (snd (add_rule sample_kb (sample_rule "r4" 7))) "r4" =
    Some (Some (sample_rule "r4" 7), sample_kb).
Proof.
  apply (add_then_remove_restores sample_kb (sample_rule "r4" 7) sample_kb_reachable).
  intros r Hr; vm_compute in Hr.
  destruct Hr as [<- | [<- | [<- | []]]]; discriminate.
Defined.

(** ** Further properties: the execution pass *)

Lemma execute_rules_fired_sublist (rs : list Rule.t) (fired : list string) (facts : Facts)
    (out : list string) (facts' : Facts) :
  execute_rules rs fired facts = (Ok out, facts') ->
  exists l, out = fired ++ l /\ l `sublist_of` (Rule.name <$> rs).
Proof.
  revert fired facts; induction rs as [|r rs IH]; intros fired facts; cbn.
  - intros [= <- _]; exists []; split; [rewrite app_nil_r; reflexivity | constructor].
  - destruct (evaluate_condition (Rule.when_condition r) facts) as [[]|e]; [| |discriminate].
    + destruct (execute_actions (Rule.then_actions r) facts) as [[_|e] facts1];
        [|discriminate].
      intros H; destruct (IH _ _ H) as [l [-> Hl]].
      exists (Rule.name r :: l); split; [rewrite <- app_assoc; reflexivity|].
      apply sublist_skip; exact Hl.
    + intros H; destruct (IH _ _ H) as [l [-> Hl]].
      exists l; split; [reflexivity | apply sublist_cons; exact Hl].
Qed.

(** A successful [execute] fires rules in salience order, each at most
    once: [rules_fired] is a subsequence of the sorted rule names, with
    no repeated name when the knowledge base is reachable;
    [facts_modified] is always empty. *)
Theorem execute_fired_in_order (kb : KnowledgeBase) (facts : Facts) (elapsed_ms : Z)
    (res : ExecutionResult) (facts' : Facts) :
  execute kb facts elapsed_ms = (Ok res, facts') ->
  rules_fired res `sublist_of` (Rule.name <$> get_rules_sorted_by_salience kb) /\
  facts_modified res = [] /\
  execution_time_ms res = elapsed_ms /\
  (reachable kb -> NoDup (rules_fired res)).
Proof.
  unfold execute.
  destruct (execute_rules (get_rules_sorted_by_salience kb) [] facts) as [[fired|e] f1] eqn:He;
    [|discriminate].
  intros [= <- _]; cbn.
  destruct (execute_rules_fired_sublist _ _ _ _ _ He) as [l [-> Hl]]; cbn.
  split; [exact Hl | split; [reflexivity | split; [reflexivity|]]].
  intros Hr; eapply sublist_NoDup; [|exact Hl].
  unfold get_rules_sorted_by_salience; rewrite (sort_by_perm Rule.salience).
  apply (reachable_names_nodup kb Hr).
Qed.

Lemma execute_fired_in_order_witness :
  execute sample_kb ∅ 0 =
    (Ok {| rules_fired := ["r2"; "r1"; "r3"]%string; facts_modified := [];
           execution_time_ms := 0 |}, ∅) /\
  NoDup ["r2"; "r1"; "r3"]%string.
Proof.
  assert (He : execute sample_kb ∅ 0 =
    (Ok {| rules_fired := ["r2"; "r1"; "r3"]%string; facts_modified := [];
           execution_time_ms := 0 |}, ∅)) by (vm_compute; reflexivity).
  split; [exact He|].
  apply (proj2 (proj2 (proj2 (execute_fired_in_order _ _ _ _ _ He)))).
  apply sample_kb_reachable.
Defined.

Lemma execute_rules_all_false (rs : list Rule.t) (fired : list string) (facts : Facts) :
  (forall r, In r rs -> evaluate_condition (Rule.when_condition r) facts = Ok false) ->
  execute_rules rs fired facts = (Ok fired, facts).
Proof.
  induction rs as [|r rs IH]; intros H; cbn; [reflexivity|].
  rewrite (H r (or_introl eq_refl)).
  apply IH; intros r' Hr'; apply H; right; exact Hr'.
Qed.

(** When every stored rule's guard evaluates to false, [execute] fires
    nothing, runs no action and returns the facts as given. *)
Theorem execute_all_guards_false (kb : KnowledgeBase) (facts : Facts) (elapsed_ms : Z) :
  (forall r, In r (rules kb) -> evaluate_condition (Rule.when_condition r) facts = Ok false) ->
  execute kb facts elapsed_ms =
    (Ok {| rules_fired := []; facts_modified := []; execution_time_ms := elapsed_ms |}, facts).
Proof.
  intros H; unfold execute; rewrite execute_rules_all_false; [reflexivity|].
  intros r Hr; apply H.
  eapply Permutation_in; [apply (sort_by_perm Rule.salience) | exact Hr].
Qed.

Lemma execute_all_guards_false_witness :
  execute (snd (add_rule KnowledgeBase_new
                 (Rule.new "speed" 5
                    (Expression.GreaterThan (Expression.Var "x") (Expression.Number 5))
                    [Expression.Assignment "y" (Expression.Number 10)])))
          (<["x" := Fact.new "x" (FactValue.Number 3)]> ∅) 4
  = (Ok {| rules_fired := []; facts_modified := []; execution_time_ms := 4 |},
     <["x" := Fact.new "x" (FactValue.Number 3)]> ∅).
Proof.
  apply execute_all_guards_false.
  intros r Hr; vm_compute in Hr; destruct Hr as [<- | []].
  vm_compute; reflexivity.
Defined.

(** ** Further properties: parser string lemmas *)

Lemma append_nil_l (b : string) : (EmptyString ++ b)%string = b.
Proof. reflexivity. Qed.

Lemma append_cons (c : ascii) (a b : string) :
  (String.String c a ++ b)%string = String.String c (a ++ b).
Proof. reflexivity. Qed.

Lemma string_length_app (a b : string) :
  String.length (a ++ b)%string = (String.length a + String.length b)%nat.
Proof.
  induction a; rewrite ?append_nil_l, ?append_cons; cbn [String.length]; lia.
Qed.

Lemma substring_prefix_app (a b : string) :
  String.substring 0 (String.length a) (a ++ b)%string = a.
Proof.
  induction a; rewrite ?append_nil_l, ?append_cons; cbn [String.length String.substring];
    [destruct b; reflexivity | congruence].
Qed.

Lemma substring_full (s : string) : String.substring 0 (String.length s) s = s.
Proof. induction s; cbn; congruence. Qed.

Lemma substring_last_app (a : string) :
  String.substring (String.length a) 1 (a ++ quote)%string = quote.
Proof.
  induction a; rewrite ?append_nil_l, ?append_cons; cbn [String.length String.substring];
    [reflexivity | exact IHa].
Qed.

(** Taking a piece of a prefix is taking it of the whole text. *)
Lemma substring_of_prefix (q m p : nat) (t : string) :
  (q + m <= p)%nat ->
  String.substring q m (String.substring 0 p t) = String.substring q m t.
Proof.
  revert q m p; induction t as [|c r IH]; intros q m p Hle.
  - destruct p; cbn; reflexivity.
  - destruct p as [|p]; [assert (q = 0%nat) as -> by lia; assert (m = 0%nat) as -> by lia;
                         reflexivity|].
    destruct q as [|q]; cbn [String.substring].
    + destruct m as [|m]; [reflexivity|].
      f_equal; apply (IH 0%nat m p); lia.
    + apply IH; lia.
Qed.

(** A text is its part before position [p], the byte at [p], and its
    part after. *)
Lemma split_at_byte (t : string) (p : nat) (c : ascii) :
  String.substring p 1 t = String.String c EmptyString ->
  (String.substring 0 p t ++ String.String c (String.substring (p + 1) (String.length t - (p + 1)) t))%string = t.
Proof.
  revert p; induction t as [|d r IH]; intros p H.
  - destruct p; discriminate.
  - destruct p as [|p]; cbn [String.substring String.length] in *.
    + injection H as -> _; cbn; rewrite Nat.sub_0_r, substring_full; reflexivity.
    + rewrite append_cons; f_equal; exact (IH p H).
Qed.

Lemma find_prefix_none (needle t : string) (p : nat) :
  (0 < String.length needle)%nat ->
  find needle t = Some p -> find needle (slice_to p t) = None.
Proof.
  intros Hpos Hf; destruct (find needle (slice_to p t)) as [q|] eqn:Hq; [|reflexivity].
  exfalso.
  destruct (find_first _ _ _ Hf) as [_ Hbefore].
  destruct (find_first _ _ _ Hq) as [Hat _].
  pose proof (find_bound _ _ _ Hpos Hq) as Hb.
  pose proof (slice_to_length p t).
  unfold slice_to in Hat; rewrite substring_of_prefix in Hat by lia.
  exact (Hbefore q ltac:(lia) Hat).
Qed.

(** [rfind] returns the last occurrence. *)
Lemma rfind_none (needle hay : string) :
  rfind needle hay = None ->
  forall q, (q + String.length needle <= String.length hay)%nat ->
  String.substring q (String.length needle) hay <> needle.
Proof.
  induction hay as [|c rest IH]; cbn [rfind].
  - destruct (String.prefix needle EmptyString) eqn:Hp; [discriminate|].
    intros _ q Hq Heq; cbn in Hq.
    assert (q = 0%nat) as -> by lia.
    apply String.prefix_correct in Heq; congruence.
  - destruct (rfind needle rest) as [p|]; [discriminate|].
    destruct (String.prefix needle (String c rest)) eqn:Hp; [discriminate|].
    intros _ [|q] Hq Heq.
    + apply String.prefix_correct in Heq; congruence.
    + cbn [String.substring String.length] in Heq, Hq.
      exact (IH eq_refl q ltac:(lia) Heq).
Qed.

Lemma rfind_last (needle hay : string) (p : nat) :
  rfind needle hay = Some p ->
  String.substring p (String.length needle) hay = needle /\
  (forall q, (p < q)%nat -> (q + String.length needle <= String.length hay)%nat ->
     String.substring q (String.length needle) hay <> needle).
Proof.
  revert p; induction hay as [|c rest IH]; intros p; cbn [rfind].
  - destruct (String.prefix needle EmptyString) eqn:Hp; [|discriminate].
    intros [= <-]; split; [apply String.prefix_correct; exact Hp|].
    intros q Hq Hle; cbn in Hle; lia.
  - destruct (rfind needle rest) as [p'|] eqn:Hr.
    + intros [= <-]; destruct (IH p' eq_refl) as [Hat Hafter]; split; [exact Hat|].
      intros [|q] Hq Hle; [lia|].
      cbn [String.substring String.length] in Hle |- *.
      apply Hafter; lia.
    + destruct (String.prefix needle (String c rest)) eqn:Hp; [|discriminate].
      intros [= <-]; split; [apply String.prefix_correct; exact Hp|].
      intros [|q] Hq Hle; [lia|].
      cbn [String.substring String.length] in Hle |- *.
      apply (rfind_none needle rest Hr); lia.
Qed.

Lemma rfind_bound (needle hay : string) (p : nat) :
  (0 < String.length needle)%nat -> rfind needle hay = Some p ->
  (p + String.length needle <= String.length hay)%nat.
Proof.
  intros Hpos Hf; destruct (rfind_last _ _ _ Hf) as [Hat _].
  destruct (substring_length_le p (String.length needle) hay) as [_ Hle].
  rewrite Hat in Hle; lia.
Qed.

(** Any fuel above the text length gives the same [parse_value]. *)
Lemma parse_value_fuel_irrel (n m : nat) (t : string) :
  (String.length t < n)%nat -> (String.length t < m)%nat ->
  parse_value_fuel n t = parse_value_fuel m t.
Proof.
  revert m t; induction n as [|n IH]; intros m t Hn Hm; [lia|].
  destruct m as [|m]; [lia|].
  cbn [parse_value_fuel].
  destruct (parse_f64 (trim t)); [reflexivity|].
  destruct (String.eqb (trim t) "true"); [reflexivity|].
  destruct (String.eqb (trim t) "false"); [reflexivity|].
  destruct (_ && _)%bool; [reflexivity|].
  destruct (forallb is_ident_char _); [reflexivity|].
  pose proof (trim_length_le t) as Htr.
  destruct (rfind " + " (trim t)) as [p|] eqn:Hplus; [|reflexivity].
  pose proof (rfind_bound " + " (trim t) p ltac:(cbn; lia) Hplus) as Hb;
    cbn [String.length] in Hb.
  pose proof (slice_to_length p (trim t)).
  pose proof (slice_from_length (p + 3) (trim t)).
  rewrite (IH m (slice_to p (trim t))), (IH m (slice_from (p + 3) (trim t))) by lia.
  reflexivity.
Qed.

(** The sign prefix of [parse_f64]. *)
Lemma parse_f64_sign_cases (l : list ascii) :
  (exists r, l = "+"%char :: r) \/ (exists r, l = "-"%char :: r) \/
  match l with
  | "+"%char :: r => (false, r)
  | "-"%char :: r => (true, r)
  | _ => (false, l)
  end = (false, l).
Proof.
  destruct l as [|c r]; [right; right; reflexivity|].
  destruct c as [[] [] [] [] [] [] [] []]; eauto.
Qed.

Lemma parse_f64_words (s : string) :
  In (String.string_of_list_ascii (map to_lower (String.list_ascii_of_string s)))
     ["inf"; "infinity"; "nan"]%string ->
  exists n, parse_f64 s = Ok n /\ (is_infinity n || is_nan n)%bool = true.
Proof.
  intros H; unfold parse_f64.
  destruct (parse_f64_sign_cases (String.list_ascii_of_string s)) as [[r Hr]|[[r Hr]|Hs]].
  - rewrite Hr in H; cbn in H; destruct H as [H|[H|[H|[]]]]; discriminate.
  - rewrite Hr in H; cbn in H; destruct H as [H|[H|[H|[]]]]; discriminate.
  - rewrite Hs; cbv beta iota zeta.
    destruct H as [H|[H|[H|[]]]]; rewrite <- H; cbn; eexists; split; reflexivity.
Qed.

(** ** Further properties: [parse_value] *)

(** The words [inf], [infinity] and [nan] in any case are read by
    [parse_f64] before the identifier rule is tried, so such a text is
    a number (infinite or NaN), never a variable. *)
Theorem parse_value_float_words (t : string) :
  In (String.string_of_list_ascii (map to_lower (String.list_ascii_of_string (trim t))))
     ["inf"; "infinity"; "nan"]%string ->
  exists n, parse_value t = Done (Ok (Expression.Number n)) /\
            (is_infinity n || is_nan n)%bool = true.
Proof.
  intros H; destruct (parse_f64_words _ H) as [n [Hn Hk]].
  exists n; split; [|exact Hk].
  unfold parse_value; cbn [parse_value_fuel]; rewrite Hn; reflexivity.
Qed.

Lemma parse_value_float_words_witness :
  exists n, parse_value " NaN " = Done (Ok (Expression.Number n)) /\
            (is_infinity n || is_nan n)%bool = true.
Proof.
  apply parse_value_float_words.
  vm_compute; right; right; left; reflexivity.
Defined.

Lemma parse_f64_quote (s : string) : parse_f64 (quote ++ s)%string = Err tt.
Proof. unfold quote; rewrite append_cons, append_nil_l; reflexivity. Qed.

(** A text that trims to [s] between two double quotes is the string
    [s] as it stands: no escape is processed and [s] may itself contain
    double quotes. *)
Theorem parse_value_quoted (t s : string) :
  trim t = (quote ++ s ++ quote)%string ->
  parse_value t = Done (Ok (Expression.String s)).
Proof.
  intros H; unfold parse_value; cbn [parse_value_fuel]; rewrite H, parse_f64_quote.
  assert (Hlen : String.length (quote ++ s ++ quote)%string = S (S (String.length s)))
    by (rewrite !string_length_app; cbn [String.length quote]; lia).
  assert (E1 : String.eqb (quote ++ s ++ quote) "true" = false)
    by (unfold quote; rewrite append_cons, append_nil_l; reflexivity).
  assert (E2 : String.eqb (quote ++ s ++ quote) "false" = false)
    by (unfold quote; rewrite append_cons, append_nil_l; reflexivity).
  assert (E3 : String.prefix quote (quote ++ s ++ quote) = true)
    by (apply String.prefix_correct;
        change (String.substring 0 1 (String.String "034" (s ++ quote)) = quote);
        destruct (s ++ quote)%string; reflexivity).
  assert (E4 : String.eqb (String.substring (String.length (quote ++ s ++ quote) - 1) 1
                             (quote ++ s ++ quote)) quote = true).
  { rewrite Hlen; replace (S (S (String.length s)) - 1)%nat with (S (String.length s)) by lia.
    change (quote ++ s ++ quote)%string with (String.String "034" (s ++ quote)).
    cbn [String.substring]; rewrite substring_last_app; apply String.eqb_refl. }
  rewrite E1, E2, E3, E4, Hlen; cbn [andb Nat.ltb Nat.leb].
  replace (S (S (String.length s)) - 2)%nat with (String.length s) by lia.
  change (quote ++ s ++ quote)%string with (String.String "034" (s ++ quote)).
  cbn [String.substring]; rewrite substring_prefix_app; reflexivity.
Qed.

Lemma parse_value_quoted_witness :
  parse_value (" " ++ quote ++ "a" ++ quote ++ "b" ++ quote ++ " ")%string =
    Done (Ok (Expression.String ("a" ++ quote ++ "b")%string)).
Proof. apply parse_value_quoted; vm_compute; reflexivity. Defined.

(** A text that trims to a lone double quote makes [parse_value] panic
    (the slice [trimmed[1..0]]). *)
Theorem parse_value_lone_quote_panics (t : string) :
  trim t = quote -> parse_value t = Panic.
Proof.
  intros H; unfold parse_value; cbn [parse_value_fuel]; rewrite H; vm_compute; reflexivity.
Qed.

Lemma parse_value_lone_quote_panics_witness : parse_value (" " ++ quote)%string = Panic.
Proof. apply parse_value_lone_quote_panics; vm_compute; reflexivity. Defined.

(** [parse_variable_or_field] splits at the first dot only: a field
    access is the object name (which has no dot), a dot and the field
    name (which may contain dots), and re-joins to the text; a variable
    is the whole text, which has no dot. *)
Theorem parse_variable_or_field_roundtrip (t obj field : string) :
  (parse_variable_or_field t = Expression.FieldAccess (Expression.Var obj) field ->
   t = (obj ++ String.String "." field)%string /\ find "." obj = None) /\
  (parse_variable_or_field t = Expression.Var obj -> obj = t /\ find "." t = None).
Proof.
  unfold parse_variable_or_field.
  destruct (find "." t) as [p|] eqn:Hf; split; intros H; try discriminate.
  - injection H as <- <-; split.
    + destruct (find_first _ _ _ Hf) as [Hat _]; cbn [String.length] in Hat.
      exact (eq_sym (split_at_byte t p "." Hat)).
    + apply find_prefix_none; [cbn; lia | exact Hf].
  - injection H as <-; split; reflexivity.
Qed.

Lemma parse_variable_or_field_roundtrip_witness :
  "a.b.c"%string = ("a" ++ String.String "." "b.c")%string /\ find "." "a" = None.
Proof.
  apply (proj1 (parse_variable_or_field_roundtrip "a.b.c" "a" "b.c")).
  vm_compute; reflexivity.
Defined.

Lemma parse_value_split (t : string) (p : nat) :
  rfind " + " (trim t) = Some p ->
  (String.length (slice_to p (trim t)) < String.length t)%nat /\
  (String.length (slice_from (p + 3) (trim t)) < String.length t)%nat.
Proof.
  intros Hf.
  pose proof (rfind_bound " + " (trim t) p ltac:(cbn; lia) Hf) as Hb;
    cbn [String.length] in Hb.
  pose proof (trim_length_le t).
  pose proof (slice_to_length p (trim t)).
  pose proof (slice_from_length (p + 3) (trim t)).
  split; lia.
Qed.

(** A text that is no number, boolean, quoted string or identifier is
    split at the last [" + "]: the text before it and the text after it
    are parsed as values, so [a + b + c] is [Add(Add(a, b), c)]. *)
Theorem parse_value_last_plus (t : string) (p : nat) :
  parse_f64 (trim t) = Err tt ->
  String.eqb (trim t) "true" = false ->
  String.eqb (trim t) "false" = false ->
  String.prefix quote (trim t) = false ->
  forallb is_ident_char (String.list_ascii_of_string (trim t)) = false ->
  rfind " + " (trim t) = Some p ->
  String.substring p 3 (trim t) = " + " /\
  (forall q, (p < q)%nat -> (q + 3 <= String.length (trim t))%nat ->
     String.substring q 3 (trim t) <> " + ") /\
  parse_value t =
    (let?? left := parse_value (slice_to p (trim t)) in
     let?? right := parse_value (slice_from (p + 3) (trim t)) in
     Done (Ok (Expression.Add left right))).
Proof.
  intros Hnum Htrue Hfalse Hquote Hident Hplus.
  destruct (rfind_last _ _ _ Hplus) as [Hat Hafter].
  split; [exact Hat | split; [exact Hafter|]].
  destruct (parse_value_split t p Hplus) as [H1 H2].
  unfold parse_value at 1; cbn [parse_value_fuel].
  rewrite Hnum, Htrue, Hfalse, Hquote, Hident, Hplus; cbn [andb].
  unfold parse_value.
  rewrite (parse_value_fuel_irrel (String.length t)
             (S (String.length (slice_to p (trim t)))) (slice_to p (trim t))),
          (parse_value_fuel_irrel (String.length t)
             (S (String.length (slice_from (p + 3) (trim t))))
             (slice_from (p + 3) (trim t))) by lia.
  reflexivity.
Qed.

Lemma parse_value_last_plus_witness :
  parse_value "x + 1 + 2" =
    Done (Ok (Expression.Add (Expression.Add (Expression.Var "x") (Expression.Number 1))
                             (Expression.Number 2))).
Proof.
  destruct (parse_value_last_plus "x + 1 + 2" 5 ltac:(vm_compute; reflexivity)
              ltac:(vm_compute; reflexivity) ltac:(vm_compute; reflexivity)
              ltac:(vm_compute; reflexivity) ltac:(vm_compute; reflexivity)
              ltac:(vm_compute; reflexivity)) as [_ [_ ->]].
  vm_compute; reflexivity.
Defined.

(** ** Further properties: [parse_actions] *)

Lemma evaluate_never_invalid_action (e : Expression.t) (facts : Facts) :
  evaluate_expression e facts <> Err (EvaluationError "Invalid action expression").
Proof.
  induction e; cbn [evaluate_expression]; try discriminate; unfold bind_result;
    repeat match goal with
    | |- context [match evaluate_expression ?x ?f with _ => _ end] =>
        destruct (evaluate_expression x f) eqn:?
    end; try congruence;
    repeat match goal with
    | |- context [match ?x with _ => _ end] => destruct x
    end; unfold num_op; try discriminate;
    repeat match goal with
    | |- context [match ?x with _ => _ end] => destruct x
    end; discriminate.
Qed.

Lemma action_form_never_invalid (a : Expression.t) (facts : Facts) :
  is_action_form a ->
  fst (execute_action a facts) <> Err (EvaluationError "Invalid action expression").
Proof.
  intros [[x [ve ->]] | [o [fld [ve ->]]]]; cbn [execute_action].
  - pose proof (evaluate_never_invalid_action ve facts).
    destruct (evaluate_expression ve facts); cbn; congruence.
  - pose proof (evaluate_never_invalid_action ve facts).
    destruct (evaluate_expression ve facts); cbn; [|congruence].
    destruct (facts !! o) as [f|]; cbn; [|discriminate].
    unfold Fact.set_field; destruct (Fact.value f); cbn; discriminate.
Qed.

Lemma parse_action_form (s : string) (a : Expression.t) :
  parse_action s = Done (Ok (Some a)) -> is_action_form a.
Proof.
  unfold parse_action, is_action_form.
  destruct (find " = " s) as [p|]; [|discriminate].
  destruct (bool_decide _).
  - destruct (split_on "." _) as [|x [|y [|z l]]]; try discriminate.
    unfold bind_outcome; destruct (parse_value _) as [[v|msg]|]; try discriminate.
    intros [= <-]; right; eauto.
  - unfold bind_outcome; destruct (parse_value _) as [[v|msg]|]; try discriminate.
    intros [= <-]; left; eauto.
Qed.

(** Every action [parse_actions] returns is an [Assignment] or a
    [FieldAssignment], at most one per [';']-separated piece, so the
    engine never rejects a parsed action as an invalid action
    expression. *)
Theorem parse_actions_only_actions (text : string) (acts : list Expression.t) :
  parse_actions text = Done (Ok acts) ->
  (length acts <= length (split_on ";" text))%nat /\
  Forall is_action_form acts /\
  (forall a facts, In a acts ->
     fst (execute_action a facts) <> Err (EvaluationError "Invalid action expression")).
Proof.
  intros H.
  assert (Hf : (length acts <= length (split_on ";" text))%nat /\ Forall is_action_form acts).
  { unfold parse_actions in H; revert acts H.
    induction (split_on ";" text) as [|piece pieces IH]; intros acts; cbn [parse_action_list].
    - intros [= <-]; cbn; split; [lia | constructor].
    - destruct (String.eqb (trim piece) EmptyString).
      + intros H; destruct (IH _ H); cbn; split; [lia | assumption].
      + unfold bind_outcome.
        destruct (parse_action (trim piece)) as [[oa|msg]|] eqn:Ha; try discriminate.
        destruct (parse_action_list pieces) as [[rest|msg]|]; try discriminate.
        intros [= <-]; destruct (IH rest eq_refl) as [Hlen Hall].
        destruct oa as [a|]; cbn; split; try lia; try assumption.
        constructor; [apply (parse_action_form _ _ Ha) | assumption]. }
  destruct Hf as [Hlen Hall]; split; [exact Hlen | split; [exact Hall|]].
  intros a facts Ha; apply action_form_never_invalid.
  rewrite Forall_forall in Hall; apply Hall, list_elem_of_In, Ha.
Qed.

Lemma parse_actions_only_actions_witness :
  parse_actions "y = 10; Person.age = x + 1" =
    Done (Ok [Expression.Assignment "y" (Expression.Number 10);
              Expression.FieldAssignment "Person" "age"
                (Expression.Add (Expression.Var "x") (Expression.Number 1))]) /\
  Forall is_action_form [Expression.Assignment "y" (Expression.Number 10);
              Expression.FieldAssignment "Person" "age"
                (Expression.Add (Expression.Var "x") (Expression.Number 1))].
Proof.
  assert (H : parse_actions "y = 10; Person.age = x + 1" =
    Done (Ok [Expression.Assignment "y" (Expression.Number 10);
              Expression.FieldAssignment "Person" "age"
                (Expression.Add (Expression.Var "x") (Expression.Number 1))]))
    by (vm_compute; reflexivity).
  split; [exact H | apply (parse_actions_only_actions _ _ H)].
Defined.


